(** * The parking puzzle: board scan and move helpers

    A shallow embedding of [src/parking/__main__.py].  The Python program
    keeps a square board of markers ([0], ["h"], ["v"]), rebuilds a list of
    [Car] objects from it with an iterative depth-first search
    ([Game.find_cars]), slides a car one row up or down by rewriting the
    board in place ([Game._move_up], [Game._move_down]) and prints the board
    with the cars numbered ([Game.__str__]).

    Python integers are modelled by [Z], Python lists by [list] with the
    indexing rules of the language written out (negative indices count from
    the end, anything else out of range raises [IndexError]), and the
    methods of [Game] by a state-and-exception monad over the fields of the
    object. *)

From Stdlib Require Import ZArith Lia Bool List.
From stdpp Require Import base option list strings pretty.
Import ListNotations.

Open Scope Z_scope.

(** ** Data model *)

(** A board cell: [0] is empty, ["h"] a part of a horizontal car, ["v"] a
    part of a vertical car. *)
Inductive cell := Empty | H | V.

Definition cell_eqb (x y : cell) : bool :=
  match x, y with
  | Empty, Empty | H, H | V, V => true
  | _, _ => false
  end.

Inductive orient := vertical | horizontal.

Definition orient_eqb (x y : orient) : bool :=
  match x, y with
  | vertical, vertical | horizontal, horizontal => true
  | _, _ => false
  end.

(** [class Car]: the attribute [length] of the source is [Car_length]. *)
Record Car := mkCar {
  start_pos : Z * Z;
  end_pos : Z * Z;
  orientation : orient;
  Car_length : Z
}.

(** [Car._calculate_length], on the attributes set before it is called. *)
Definition _calculate_length (start_pos end_pos : Z * Z) (o : orient) : Z :=
  if orient_eqb o horizontal then snd end_pos - snd start_pos + 1
  else fst end_pos - fst start_pos + 1.

(** [Car.__init__] *)
Definition Car__init__ (start_pos end_pos : Z * Z) (o : orient) : Car :=
  mkCar start_pos end_pos o (_calculate_length start_pos end_pos o).

Definition ESTADO_INICIAL : list (list cell) :=
  [ [Empty; Empty; Empty; Empty; Empty];
    [Empty; Empty; V; Empty; Empty];
    [Empty; Empty; V; Empty; Empty];
    [Empty; Empty; Empty; Empty; Empty];
    [Empty; Empty; Empty; H; H] ].

Definition ESTADO_OBJETIVO : list (list cell) :=
  [ [Empty; Empty; Empty; Empty; Empty];
    [Empty; Empty; Empty; Empty; Empty];
    [Empty; Empty; Empty; H; H];
    [Empty; Empty; Empty; Empty; Empty];
    [Empty; Empty; Empty; Empty; Empty] ].

(** The fields of a [Game] object. *)
Record Game := mkGame {
  board_dimension : Z;
  board : list (list cell);
  cars : list Car
}.

(** [Game.__init__].  The board of the new object is the list
    [ESTADO_INICIAL] itself, not a copy: this is the object created first,
    before any move has rewritten that list. *)
Definition Game__init__ (board_dimension : Z) : Game :=
  mkGame board_dimension ESTADO_INICIAL [].

(** ** Python lists *)

(** The position an index [i] denotes in a list of [n] elements. *)
Definition py_index (n : nat) (i : Z) : option nat :=
  if (0 <=? i) && (i <? Z.of_nat n) then Some (Z.to_nat i)
  else if (- Z.of_nat n <=? i) && (i <? 0) then Some (Z.to_nat (i + Z.of_nat n))
  else None.

(** [l[i]]; [None] stands for [IndexError]. *)
Definition py_getitem {A} (l : list A) (i : Z) : option A :=
  match py_index (length l) i with
  | Some k => l !! k
  | None => None
  end.

(** [l[i] = x] *)
Definition py_setitem {A} (l : list A) (i : Z) (x : A) : option (list A) :=
  match py_index (length l) i with
  | Some k => Some (<[k:=x]> l)
  | None => None
  end.

(** [m[r][c]] *)
Definition py_getitem2 {A} (m : list (list A)) (r c : Z) : option A :=
  match py_getitem m r with
  | Some row => py_getitem row c
  | None => None
  end.

(** [m[r][c] = x]: the row object [m[r]] is updated in place.  The rows
    are distinct objects, as those of [ESTADO_INICIAL] are. *)
Definition py_setitem2 {A} (m : list (list A)) (r c : Z) (x : A)
  : option (list (list A)) :=
  match py_getitem m r with
  | Some row =>
      match py_setitem row c x with
      | Some row' => py_setitem m r row'
      | None => None
      end
  | None => None
  end.

(** [range(a, b)] *)
Definition py_range (a b : Z) : list Z := seqZ a (b - a).

(** ** The monad of [Game] methods *)

Inductive exn := IndexError | ValueError.

Inductive outcome (A : Type) :=
| Val (a : A)
| Raise (e : exn).
Arguments Val {A} a.
Arguments Raise {A} e.

Definition M (A : Type) : Type := Game -> outcome A * Game.

Definition ret {A} (a : A) : M A := fun g => (Val a, g).

Definition raise {A} (e : exn) : M A := fun g => (Raise e, g).

Definition bind {A B} (m : M A) (k : A -> M B) : M B :=
  fun g =>
    match m g with
    | (Val a, g') => k a g'
    | (Raise e, g') => (Raise e, g')
    end.

Notation "'do' x <- m ; k" := (bind m (fun x => k))
  (at level 10, x name, m at level 100, k at level 200, only parsing).
Notation "'run' m ; k" := (bind m (fun _ => k))
  (at level 10, m at level 100, k at level 200, only parsing).

(** A value read from a list, or [IndexError]. *)
Definition index_or_raise {A} (o : option A) : M A :=
  match o with
  | Some a => ret a
  | None => raise IndexError
  end.

Definition get_board : M (list (list cell)) := fun g => (Val (board g), g).
Definition get_cars : M (list Car) := fun g => (Val (cars g), g).
Definition get_board_dimension : M Z := fun g => (Val (board_dimension g), g).

Definition set_board (b : list (list cell)) : M unit :=
  fun g => (Val tt, mkGame (board_dimension g) b (cars g)).
Definition set_cars (cs : list Car) : M unit :=
  fun g => (Val tt, mkGame (board_dimension g) (board g) cs).

(** [self.board[r][c]] *)
Definition board_getitem (r c : Z) : M cell :=
  do b <- get_board;
  index_or_raise (py_getitem2 b r c).

(** [self.board[r][c] = x] *)
Definition board_setitem (r c : Z) (x : cell) : M unit :=
  do b <- get_board;
  do b' <- index_or_raise (py_setitem2 b r c x);
  set_board b'.

(** [for x in l: body(x)] *)
Fixpoint for_ {A} (l : list A) (body : A -> M unit) : M unit :=
  match l with
  | [] => ret tt
  | x :: l' => run body x; for_ l' body
  end.

(** A [for] loop whose body updates local variables [s]. *)
Fixpoint for_fold {A S} (l : list A) (body : A -> S -> M S) (s : S) : M S :=
  match l with
  | [] => ret s
  | x :: l' => do s' <- body x s; for_fold l' body s'
  end.

(** A pure computation that may raise, run inside a method. *)
Definition lift {A} (r : outcome A) : M A := fun g => (r, g).

(** ** [Game.find_cars] *)

(** [min(...)] and [max(...)] over a sequence of integers; the empty
    sequence raises [ValueError]. *)
Definition py_min (l : list Z) : outcome Z :=
  match l with
  | [] => Raise ValueError
  | x :: l' => Val (fold_left Z.min l' x)
  end.

Definition py_max (l : list Z) : outcome Z :=
  match l with
  | [] => Raise ValueError
  | x :: l' => Val (fold_left Z.max l' x)
  end.

(** The cells pushed after a visit, the top of the stack first:
    [stack.pop()] takes the cell appended last. *)
Definition neighbours (o : orient) (curr_r curr_c : Z) : list (Z * Z) :=
  if orient_eqb o horizontal
  then [(curr_r, curr_c - 1); (curr_r, curr_c + 1)]
  else [(curr_r - 1, curr_c); (curr_r + 1, curr_c)].

(** The local variables of the search: [visited], [car_parts], [stack]
    (top first). *)
Definition dfs_state : Type := list (list bool) * list (Z * Z) * list (Z * Z).

(** One turn of [while stack:], after [curr_r, curr_c = stack.pop()]. *)
Definition dfs_body (dim : Z) (b : list (list cell)) (car_type : cell)
    (o : orient) (visited : list (list bool)) (car_parts : list (Z * Z))
    (curr : Z * Z) (stack : list (Z * Z)) : outcome dfs_state :=
  let '(curr_r, curr_c) := curr in
  let is_valid_row := (0 <=? curr_r) && (curr_r <? dim) in
  let is_valid_col := (0 <=? curr_c) && (curr_c <? dim) in
  if negb (is_valid_row && is_valid_col) then Val (visited, car_parts, stack)
  else
    match py_getitem2 visited curr_r curr_c with
    | None => Raise IndexError
    | Some true => Val (visited, car_parts, stack)
    | Some false =>
        match py_getitem2 b curr_r curr_c with
        | None => Raise IndexError
        | Some x =>
            if negb (cell_eqb x car_type) then Val (visited, car_parts, stack)
            else
              match py_setitem2 visited curr_r curr_c true with
              | None => Raise IndexError
              | Some visited' =>
                  Val (visited', car_parts ++ [(curr_r, curr_c)],
                       neighbours o curr_r curr_c ++ stack)
              end
        end
    end.

(** The [while] loop, cut after [fuel] turns ([None]). *)
Fixpoint dfs_fuel (fuel : nat) (dim : Z) (b : list (list cell))
    (car_type : cell) (o : orient) (visited : list (list bool))
    (car_parts stack : list (Z * Z))
  : option (outcome (list (list bool) * list (Z * Z))) :=
  match stack with
  | [] => Some (Val (visited, car_parts))
  | curr :: stack' =>
      match fuel with
      | O => None
      | S fuel' =>
          match dfs_body dim b car_type o visited car_parts curr stack' with
          | Raise e => Some (Raise e)
          | Val (visited', car_parts', stack'') =>
              dfs_fuel fuel' dim b car_type o visited' car_parts' stack''
          end
      end
  end.

Fixpoint count_false (row : list bool) : nat :=
  match row with
  | [] => 0%nat
  | x :: row' => ((if x then 0 else 1) + count_false row')%nat
  end.

(** The number of cells of [visited] still [False]. *)
Fixpoint unvisited (visited : list (list bool)) : nat :=
  match visited with
  | [] => 0%nat
  | row :: visited' => (count_false row + unvisited visited')%nat
  end.

(** A number of turns the loop cannot exceed: every turn pops a cell, and
    only a turn that marks a fresh cell pushes two. *)
Definition dfs_measure (visited : list (list bool)) (stack : list (Z * Z))
  : nat := (length stack + 2 * unvisited visited)%nat.

(** The [while] loop.  The fuel given is never used up ([dfs_fuel_enough]
    below), so the last branch is never taken. *)
Definition dfs (dim : Z) (b : list (list cell)) (car_type : cell)
    (o : orient) (visited : list (list bool)) (car_parts stack : list (Z * Z))
  : outcome (list (list bool) * list (Z * Z)) :=
  match dfs_fuel (dfs_measure visited stack) dim b car_type o
                 visited car_parts stack with
  | Some r => r
  | None => Val (visited, car_parts)
  end.

(** The body of the two nested [for] loops, at cell [(r, c)]. *)
Definition scan_cell (r c : Z) (visited : list (list bool))
  : M (list (list bool)) :=
  do x <- board_getitem r c;
  if cell_eqb x Empty then ret visited
  else
    do seen <- index_or_raise (py_getitem2 visited r c);
    if seen then ret visited
    else
      do car_type <- board_getitem r c;
      let orientation := if cell_eqb car_type H then horizontal else vertical in
      let car_parts := [] in
      let stack := [(r, c)] in
      do dim <- get_board_dimension;
      do b <- get_board;
      do found <- lift (dfs dim b car_type orientation visited car_parts stack);
      let '(visited', car_parts') := found in
      match car_parts' with
      | [] => ret visited'
      | _ :: _ =>
          do min_r <- lift (py_min (map fst car_parts'));
          do min_c <- lift (py_min (map snd car_parts'));
          do max_r <- lift (py_max (map fst car_parts'));
          do max_c <- lift (py_max (map snd car_parts'));
          let new_car := Car__init__ (min_r, min_c) (max_r, max_c) orientation in
          do cs <- get_cars;
          run set_cars (cs ++ [new_car]);
          ret visited'
      end.

Definition find_cars : M unit :=
  run set_cars [];
  do dim <- get_board_dimension;
  let visited := replicate (Z.to_nat dim) (replicate (Z.to_nat dim) false) in
  do dim_r <- get_board_dimension;
  run for_fold (py_range 0 dim_r) (fun r visited =>
        do dim_c <- get_board_dimension;
        for_fold (py_range 0 dim_c) (fun c visited => scan_cell r c visited)
                 visited) visited;
  ret tt.

(** ** [Game._move_up], [Game._move_down], [Game.move] *)

(** [self.cars[car_num - 1]] is the only use of [car_num]. *)
Definition _move_up (car_num : Z) : M unit :=
  do cs <- get_cars;
  do car <- index_or_raise (py_getitem cs (car_num - 1));
  let orientation := if orient_eqb (orientation car) vertical then V else H in
  run (if cell_eqb orientation H then
         let '(i, start_j) := start_pos car in
         let end_j := snd (end_pos car) in
         for_ (py_range start_j (end_j + 1)) (fun j =>
           run board_setitem i j Empty;
           board_setitem (i - 1) j orientation)
       else ret tt);
  if cell_eqb orientation V then
    let '(start_i, j) := start_pos car in
    let end_i := fst (end_pos car) in
    run for_ (py_range start_i (end_i + 1)) (fun i =>
          board_setitem i j Empty);
    for_ (py_range start_i (end_i + 1)) (fun i =>
      board_setitem (i - 1) j orientation)
  else ret tt.

(** [print(car)] writes to the standard output only, which is not part of
    the state of the object; it is left out. *)
Definition _move_down (car_num : Z) : M unit :=
  do cs <- get_cars;
  do car <- index_or_raise (py_getitem cs (car_num - 1));
  let orientation := if orient_eqb (orientation car) vertical then V else H in
  run (if cell_eqb orientation H then
         let '(start_i, start_j) := start_pos car in
         let '(end_i, end_j) := (start_i + 1, snd (end_pos car)) in
         for_ (py_range start_j (end_j + 1)) (fun j =>
           run board_setitem start_i j Empty;
           board_setitem end_i j orientation)
       else ret tt);
  if cell_eqb orientation V then
    let '(start_i, j) := start_pos car in
    let end_i := fst (end_pos car) in
    run for_ (py_range start_i (end_i + 1)) (fun i =>
          board_setitem i j Empty);
    for_ (py_range start_i (end_i + 1)) (fun i =>
      board_setitem (i + 1) j orientation)
  else ret tt.

Inductive direction := up | down | left | right.

(** [Game.move]: the body is [pass]. *)
Definition move (car_idx : Z) (d : direction) : M unit := ret tt.

(** ** The goal check *)

(** Modelled from the spec: the source defines the target board
    [ESTADO_OBJETIVO] but no function that reads it; [isSolved] is the goal
    check of the specification, "solved iff every target cell carries the
    designated car's marker type", the target cells being the occupied
    cells of [ESTADO_OBJETIVO]. *)
Definition target_cells : list (Z * Z * cell) :=
  flat_map (fun r =>
    flat_map (fun c =>
      match py_getitem2 ESTADO_OBJETIVO r c with
      | Some Empty | None => []
      | Some x => [(r, c, x)]
      end) (py_range 0 5)) (py_range 0 5).

Definition isSolved (b : list (list cell)) : bool :=
  forallb (fun t =>
    match t with
    | (r, c, x) =>
        match py_getitem2 b r c with
        | Some y => cell_eqb y x
        | None => false
        end
    end) target_cells.

(** ** [Game.__str__] *)

(** A cell of the copy of the board that [__str__] paints: a marker, or
    the number of a car. *)
Inductive item := Marker (x : cell) | Number (k : Z).

(** [f"{col}"] *)
Definition str_item (col : item) : string :=
  match col with
  | Marker Empty => "0"
  | Marker H => "h"
  | Marker V => "v"
  | Number k => pretty k
  end.

Definition newline : string := String (Ascii.ascii_of_nat 10) "".

(** The two loops that build [out]. *)
Definition render (copy : list (list item)) : string :=
  fold_left (fun out row =>
    fold_left (fun out col => out +:+ (str_item col +:+ " ")) row out
      +:+ newline) copy "".

(** [enumerate(l)] *)
Fixpoint enumerate_from {A} (k : Z) (l : list A) : list (Z * A) :=
  match l with
  | [] => []
  | x :: l' => (k, x) :: enumerate_from (k + 1) l'
  end.

Definition enumerate {A} (l : list A) : list (Z * A) := enumerate_from 0 l.

(** [deepcopy(self.board)] *)
Definition deepcopy (b : list (list cell)) : list (list item) :=
  (fun row : list cell => Marker <$> row) <$> b.

(** The body of [for n, car in enumerate(self.cars)], on the copy. *)
Definition paint_car (n : Z) (car : Car) (copy : list (list item))
  : M (list (list item)) :=
  if orient_eqb (orientation car) vertical then
    let '(start_i, j) := start_pos car in
    let end_i := fst (end_pos car) + 1 in
    for_fold (py_range start_i end_i) (fun i copy =>
      index_or_raise (py_setitem2 copy i j (Number (n + 1)))) copy
  else if orient_eqb (orientation car) horizontal then
    let '(i, start_j) := start_pos car in
    let end_j := snd (end_pos car) + 1 in
    for_fold (py_range start_j end_j) (fun j copy =>
      index_or_raise (py_setitem2 copy i j (Number (n + 1)))) copy
  else ret copy.

Definition paint (cs : list Car) (copy : list (list item))
  : M (list (list item)) :=
  for_fold (enumerate cs) (fun nc copy => paint_car (fst nc) (snd nc) copy)
           copy.

Definition __str__ : M string :=
  run find_cars;
  do b <- get_board;
  do cs <- get_cars;
  do copy <- paint cs (deepcopy b);
  ret (render copy).

(** ** Predicates used in the statements *)

(** [m] never changes the component [f] of the object, whether it returns
    or raises. *)
Definition keeps {X A} (f : Game -> X) (m : M A) : Prop :=
  forall g, f (snd (m g)) = f g.

(** A list of lists with [n] rows of [n] elements. *)
Definition square {A} (n : Z) (m : list (list A)) : Prop :=
  Z.of_nat (length m) = n /\
  Forall (fun row => Z.of_nat (length row) = n) m.

(** The cell at [(r, c)] when both coordinates are inside the board: the
    test made by the search before it reads a cell. *)
Definition cell_at (n : Z) (b : list (list cell)) (r c : Z) : option cell :=
  if (0 <=? r) && (r <? n) && (0 <=? c) && (c <? n) then py_getitem2 b r c
  else None.

(** The orientation the scan gives to a marker. *)
Definition orient_of (x : cell) : orient :=
  if cell_eqb x H then horizontal else vertical.

(** The step between two cells explored one after the other: along the
    row of a horizontal car, along the column of a vertical one. *)
Definition axis (o : orient) : Z * Z :=
  if orient_eqb o horizontal then (0, 1) else (1, 0).

(** [car] is a straight run of equally marked cells, inside the board,
    that cannot be extended at either end, and its length is the number of
    these cells. *)
Definition maximal_run (n : Z) (b : list (list cell)) (car : Car) : Prop :=
  let '(r1, c1) := start_pos car in
  let '(r2, c2) := end_pos car in
  match orientation car with
  | horizontal =>
      r1 = r2 /\ c1 <= c2 /\
      (forall c, c1 <= c <= c2 -> cell_at n b r1 c = Some H) /\
      cell_at n b r1 (c1 - 1) <> Some H /\
      cell_at n b r1 (c2 + 1) <> Some H /\
      Car_length car = c2 - c1 + 1
  | vertical =>
      c1 = c2 /\ r1 <= r2 /\
      (forall r, r1 <= r <= r2 -> cell_at n b r c1 = Some V) /\
      cell_at n b (r1 - 1) c1 <> Some V /\
      cell_at n b (r2 + 1) c1 <> Some V /\
      Car_length car = r2 - r1 + 1
  end.

(** The cell [(r, c)] lies in the rectangle from [start_pos] to
    [end_pos]. *)
Definition covers (car : Car) (r c : Z) : bool :=
  (fst (start_pos car) <=? r) && (r <=? fst (end_pos car)) &&
  (snd (start_pos car) <=? c) && (c <=? snd (end_pos car)).

(** A cell the search would take: inside the board, not visited, marked
    [car_type]. *)
Definition fresh (n : Z) (b : list (list cell)) (car_type : cell)
    (visited : list (list bool)) (p : Z * Z) : bool :=
  let '(r, c) := p in
  (0 <=? r) && (r <? n) && (0 <=? c) && (c <? n) &&
  match py_getitem2 visited r c with Some false => true | _ => false end &&
  match py_getitem2 b r c with Some x => cell_eqb x car_type | None => false end.

(** [(r, c)] is one of the cells of [S]. *)
Definition mem (S : list (Z * Z)) (r c : Z) : bool :=
  existsb (fun p => (r =? fst p) && (c =? snd p)) S.

(** [visited'] is [visited] with the cells of [S] marked. *)
Definition grows (n : Z) (visited visited' : list (list bool))
    (S : list (Z * Z)) : Prop :=
  square n visited' /\
  forall r c, 0 <= r -> 0 <= c ->
    py_getitem2 visited' r c =
    if mem S r c then Some true else py_getitem2 visited r c.

(** Every visited cell has its equally marked neighbours along its axis
    visited too. *)
Definition closed (n : Z) (b : list (list cell)) (visited : list (list bool))
  : Prop :=
  forall r c x sigma,
    cell_at n b r c = Some x -> x <> Empty ->
    py_getitem2 visited r c = Some true ->
    sigma = 1 \/ sigma = -1 ->
    cell_at n b (r + sigma * fst (axis (orient_of x)))
                (c + sigma * snd (axis (orient_of x))) = Some x ->
    py_getitem2 visited (r + sigma * fst (axis (orient_of x)))
                        (c + sigma * snd (axis (orient_of x))) = Some true.

(** The cell [t] steps away from [(r0, c0)] along the axis of [o]. *)
Definition line_point (o : orient) (r0 c0 t : Z) : Z * Z :=
  (r0 + t * fst (axis o), c0 + t * snd (axis o)).

(** The cell [p] has non-negative coordinates and is marked in
    [visited]. *)
Definition seen (visited : list (list bool)) (p : Z * Z) : Prop :=
  0 <= fst p /\ 0 <= snd p /\
  py_getitem2 visited (fst p) (snd p) = Some true.

(** The cell [(r, c)] needs no search any more: it is empty or visited. *)
Definition settled (n : Z) (b : list (list cell))
    (visited : list (list bool)) (r c : Z) : Prop :=
  cell_at n b r c = Some Empty \/ py_getitem2 visited r c = Some true.

(** Every visited cell of the board lies in one of the cars [cs]. *)
Definition accounted (n : Z) (visited : list (list bool)) (cs : list Car)
  : Prop :=
  forall r c, 0 <= r < n -> 0 <= c < n ->
    py_getitem2 visited r c = Some true ->
    exists car, In car cs /\ covers car r c = true.

(** What holds between two cells of the scan: the object still has its
    dimension and board, [visited] is closed, every car found so far is a
    maximal run, and every visited cell lies in one of them. *)
Definition scan_inv (n : Z) (b : list (list cell))
    (visited : list (list bool)) (g : Game) : Prop :=
  board_dimension g = n /\ board g = b /\
  square n visited /\ closed n b visited /\
  Forall (maximal_run n b) (cars g) /\
  accounted n visited (cars g).

(** The coordinates the move helpers read from [car] are inside a board
    of [n] rows and columns. *)
Definition fits (n : Z) (car : Car) : Prop :=
  0 <= fst (start_pos car) < n /\ 0 <= snd (start_pos car) < n /\
  fst (end_pos car) < n /\ snd (end_pos car) < n.

(** The cell [p] comes before the cell [q] when the board is read row by
    row, each row from the left. *)
Definition row_major_lt (p q : Z * Z) : Prop :=
  fst p < fst q \/ (fst p = fst q /\ snd p < snd q).

(** [R] holds between every element of [l] and every later one. *)
Definition pairwise {A} (R : A -> A -> Prop) (l : list A) : Prop :=
  forall (i j : nat) a b,
    (i < j)%nat -> l !! i = Some a -> l !! j = Some b -> R a b.

(** No cell lies in both cars. *)
Definition apart (a b : Car) : Prop :=
  forall r c, covers a r c && covers b r c = false.

(** What holds when the scan reaches the cell [(r, c)]: besides
    [scan_inv], every cell before [(r, c)] is settled, the cars found so
    far start before [(r, c)], in increasing order, their cells are visited
    and no two of them share a cell. *)
Definition scan_order_inv (n : Z) (b : list (list cell)) (r c : Z)
    (visited : list (list bool)) (g : Game) : Prop :=
  scan_inv n b visited g /\
  (forall r' c', 0 <= r' < n -> 0 <= c' < n ->
     row_major_lt (r', c') (r, c) -> settled n b visited r' c') /\
  Forall (fun car => row_major_lt (start_pos car) (r, c)) (cars g) /\
  pairwise (fun a b => row_major_lt (start_pos a) (start_pos b)) (cars g) /\
  (forall car r' c', In car (cars g) -> covers car r' c' = true ->
     seen visited (r', c')) /\
  pairwise apart (cars g).

(** The object has the board [b] and the dimension [n]. *)
Definition on_board (b : list (list cell)) (n : Z) (g : Game) : Prop :=
  board g = b /\ board_dimension g = n.

(** From an object on [b] and [n], [m] returns or raises [e], and leaves
    an object on [b] and [n]. *)
Definition returns_or_raises {A} (e : exn) (b : list (list cell)) (n : Z)
    (m : M A) : Prop :=
  forall g, on_board b n g ->
    (exists a g', m g = (Val a, g') /\ on_board b n g') \/
    (exists g', m g = (Raise e, g') /\ on_board b n g').

(** The copy after the cars [done] have been painted over the board [b]:
    a cell in the car of index [i] holds [i + 1], a cell in none of the
    cars holds the marker of the board. *)
Definition painted (n : Z) (b : list (list cell)) (done : list Car)
    (copy : list (list item)) : Prop :=
  square n copy /\
  forall r c, 0 <= r < n -> 0 <= c < n ->
    (forall (i : nat) car,
       done !! i = Some car -> covers car r c = true ->
       py_getitem2 copy r c = Some (Number (Z.of_nat i + 1))) /\
    ((forall car, In car done -> covers car r c = false) ->
     py_getitem2 copy r c = Marker <$> py_getitem2 b r c).

(** * Properties *)

(** ** What a method leaves alone *)

Section Frame.
Context {X : Type} (f : Game -> X).

Lemma keeps_ret {A} (a : A) : keeps f (ret a).
Proof. intros g; reflexivity. Qed.

Lemma keeps_raise {A} (e : exn) : keeps f (@raise A e).
Proof. intros g; reflexivity. Qed.

Lemma keeps_lift {A} (r : outcome A) : keeps f (lift r).
Proof. intros g; reflexivity. Qed.

Lemma keeps_index_or_raise {A} (o : option A) : keeps f (index_or_raise o).
Proof. destruct o; intros g; reflexivity. Qed.

Lemma keeps_bind {A B} (m : M A) (k : A -> M B) :
  keeps f m -> (forall a, keeps f (k a)) -> keeps f (bind m k).
Proof.
  intros Hm Hk g. unfold bind. specialize (Hm g).
  destruct (m g) as [[a|e] g']; simpl in *.
  - rewrite Hk. exact Hm.
  - exact Hm.
Qed.

Lemma keeps_for_ {A} (l : list A) (body : A -> M unit) :
  (forall x, keeps f (body x)) -> keeps f (for_ l body).
Proof.
  intros Hb. induction l as [|x l IH]; simpl.
  - apply keeps_ret.
  - apply keeps_bind; [apply Hb | intros _; exact IH].
Qed.

Lemma keeps_for_fold {A S} (l : list A) (body : A -> S -> M S) :
  (forall x s, keeps f (body x s)) -> forall s, keeps f (for_fold l body s).
Proof.
  intros Hb. induction l as [|x l IH]; intros s; simpl.
  - apply keeps_ret.
  - apply keeps_bind; [apply Hb | intros s'; apply IH].
Qed.

Lemma keeps_get_board : keeps f get_board.
Proof. intros g; reflexivity. Qed.

Lemma keeps_get_cars : keeps f get_cars.
Proof. intros g; reflexivity. Qed.

Lemma keeps_get_board_dimension : keeps f get_board_dimension.
Proof. intros g; reflexivity. Qed.
End Frame.

Create HintDb frame.

#[local] Hint Resolve keeps_ret keeps_raise keeps_lift keeps_index_or_raise
  keeps_get_board keeps_get_cars keeps_get_board_dimension : frame.

Ltac frame_step :=
  first
    [ solve [ auto with frame ]
    | apply keeps_bind; [| intros ? ]
    | apply keeps_for_; intros ?
    | apply keeps_for_fold; intros ? ?
    | intros ?; reflexivity ].

(** Writing a cell touches neither the cars nor the dimension. *)
Lemma board_setitem_keeps_cars r c x : keeps cars (board_setitem r c x).
Proof. unfold board_setitem. repeat frame_step. Qed.

Lemma board_setitem_keeps_dimension r c x :
  keeps board_dimension (board_setitem r c x).
Proof. unfold board_setitem. repeat frame_step. Qed.

#[local] Hint Resolve board_setitem_keeps_cars board_setitem_keeps_dimension
  : frame.

Lemma _move_up_keeps_cars car_num : keeps cars (_move_up car_num).
Proof.
  unfold _move_up. repeat frame_step.
  - destruct (cell_eqb _ H); [destruct (start_pos _)|]; repeat frame_step.
  - destruct (cell_eqb _ V); [destruct (start_pos _)|]; repeat frame_step.
Qed.

Lemma _move_down_keeps_cars car_num : keeps cars (_move_down car_num).
Proof.
  unfold _move_down. repeat frame_step.
  - destruct (cell_eqb _ H); [destruct (start_pos _)|]; repeat frame_step.
  - destruct (cell_eqb _ V); [destruct (start_pos _)|]; repeat frame_step.
Qed.

Lemma _move_up_keeps_dimension car_num :
  keeps board_dimension (_move_up car_num).
Proof.
  unfold _move_up. repeat frame_step.
  - destruct (cell_eqb _ H); [destruct (start_pos _)|]; repeat frame_step.
  - destruct (cell_eqb _ V); [destruct (start_pos _)|]; repeat frame_step.
Qed.

Lemma _move_down_keeps_dimension car_num :
  keeps board_dimension (_move_down car_num).
Proof.
  unfold _move_down. repeat frame_step.
  - destruct (cell_eqb _ H); [destruct (start_pos _)|]; repeat frame_step.
  - destruct (cell_eqb _ V); [destruct (start_pos _)|]; repeat frame_step.
Qed.

Lemma set_cars_keeps_board cs : keeps board (set_cars cs).
Proof. intros g; reflexivity. Qed.

Lemma set_cars_keeps_dimension cs : keeps board_dimension (set_cars cs).
Proof. intros g; reflexivity. Qed.

#[local] Hint Resolve set_cars_keeps_board set_cars_keeps_dimension : frame.

Lemma board_getitem_keeps {X} (f : Game -> X) r c : keeps f (board_getitem r c).
Proof. unfold board_getitem. repeat frame_step. Qed.

#[local] Hint Resolve board_getitem_keeps : frame.

Lemma scan_cell_keeps_board r c visited : keeps board (scan_cell r c visited).
Proof.
  unfold scan_cell.
  apply keeps_bind; [auto with frame | intros x].
  destruct (cell_eqb x Empty); [auto with frame |].
  apply keeps_bind; [auto with frame | intros seen].
  destruct seen; [auto with frame |].
  do 3 (apply keeps_bind; [auto with frame | intros ?]).
  apply keeps_bind; [auto with frame | intros [visited' [|p ps]]].
  - auto with frame.
  - repeat frame_step.
Qed.

Lemma scan_cell_keeps_dimension r c visited :
  keeps board_dimension (scan_cell r c visited).
Proof.
  unfold scan_cell.
  apply keeps_bind; [auto with frame | intros x].
  destruct (cell_eqb x Empty); [auto with frame |].
  apply keeps_bind; [auto with frame | intros seen].
  destruct seen; [auto with frame |].
  do 3 (apply keeps_bind; [auto with frame | intros ?]).
  apply keeps_bind; [auto with frame | intros [visited' [|p ps]]].
  - auto with frame.
  - repeat frame_step.
Qed.

#[local] Hint Resolve scan_cell_keeps_board scan_cell_keeps_dimension : frame.

(** The scan reads the board and writes only [self.cars]. *)
Lemma find_cars_keeps_board : keeps board find_cars.
Proof. unfold find_cars. repeat frame_step. Qed.

Lemma find_cars_keeps_dimension : keeps board_dimension find_cars.
Proof. unfold find_cars. repeat frame_step. Qed.

(** The scan starts by emptying [self.cars]: what it computes depends on
    the board and the dimension only. *)
Lemma find_cars_ignores_cars g1 g2 :
  board g1 = board g2 ->
  board_dimension g1 = board_dimension g2 ->
  find_cars g1 = find_cars g2.
Proof.
  intros Hb Hd. destruct g1 as [d1 b1 c1], g2 as [d2 b2 c2]. simpl in Hb, Hd.
  subst. reflexivity.
Qed.

(** ** C4: the cars of the initial board *)

(** C4. Scanning the initial 5x5 board returns normally and yields exactly
    two cars, in this order: the vertical car from (1,2) to (2,2) of length
    2, then the horizontal car from (4,3) to (4,4) of length 2. *)
Theorem find_cars_ESTADO_INICIAL :
  exists g',
    find_cars (Game__init__ 5) = (Val tt, g') /\
    board g' = ESTADO_INICIAL /\
    cars g' = [ mkCar (1, 2) (2, 2) vertical 2;
                mkCar (4, 3) (4, 4) horizontal 2 ].
Proof. eexists. split; [vm_compute; reflexivity | split; reflexivity]. Qed.

(** ** C8: a move leaves the cached cars alone *)

(** C8. A move changes nothing but the board.  Neither move helper (nor
    the public [move]) rescans or modifies the Car collection, whether it
    returns or raises: after the call [self.cars] holds exactly the cars,
    with their coordinates, it held before; the dimension is left alone
    too. *)
Theorem move_keeps_cars (car_num : Z) (d : direction) (g : Game) :
  (cars (snd (_move_up car_num g)) = cars g /\
   board_dimension (snd (_move_up car_num g)) = board_dimension g) /\
  (cars (snd (_move_down car_num g)) = cars g /\
   board_dimension (snd (_move_down car_num g)) = board_dimension g) /\
  (cars (snd (move car_num d g)) = cars g /\
   board_dimension (snd (move car_num d g)) = board_dimension g).
Proof.
  split; [|split].
  - split; [apply _move_up_keeps_cars | apply _move_up_keeps_dimension].
  - split; [apply _move_down_keeps_cars | apply _move_down_keeps_dimension].
  - split; reflexivity.
Qed.

(** After moving car 1 of the initial board up, the board has the car in
    rows 0 and 1 while the cached car still says rows 1 and 2. *)
Example move_up_leaves_cars_stale :
  let g := snd (find_cars (Game__init__ 5)) in
  let g' := snd (_move_up 1 g) in
  py_getitem2 (board g') 0 2 = Some V /\
  py_getitem2 (board g') 2 2 = Some Empty /\
  py_getitem (cars g') 0 = Some (mkCar (1, 2) (2, 2) vertical 2).
Proof. vm_compute. repeat split. Qed.

(** ** C9: scanning twice *)

(** C9. Scanning a second time, with no change to the board in between,
    gives the same outcome and the same object as the first scan: the same
    cars in the same order, each with the same start, end, orientation and
    length. *)
Theorem find_cars_twice (g : Game) :
  find_cars (snd (find_cars g)) = find_cars g /\
  cars (snd (find_cars (snd (find_cars g)))) = cars (snd (find_cars g)).
Proof.
  assert (E : find_cars (snd (find_cars g)) = find_cars g).
  { apply find_cars_ignores_cars.
    - apply find_cars_keeps_board.
    - apply find_cars_keeps_dimension. }
  split; [exact E | rewrite E; reflexivity].
Qed.

(** ** C10: the public move *)

(** C10. For every car index and every direction, [Game.move] returns
    [None] and leaves the object, board and cars, as it was. *)
Theorem move_is_a_noop (car_idx : Z) (d : direction) (g : Game) :
  move car_idx d g = (Val tt, g) /\
  board (snd (move car_idx d g)) = board g /\
  cars (snd (move car_idx d g)) = cars g.
Proof. repeat split. Qed.

(** ** Indexing *)

Lemma py_index_in (n : nat) (i : Z) :
  - Z.of_nat n <= i < Z.of_nat n ->
  py_index n i = Some (Z.to_nat (i mod Z.of_nat n)).
Proof.
  intros Hi. unfold py_index.
  destruct (Z.leb_spec 0 i), (Z.ltb_spec i (Z.of_nat n)); simpl; try lia.
  - rewrite Z.mod_small by lia. reflexivity.
  - destruct (Z.leb_spec (- Z.of_nat n) i), (Z.ltb_spec i 0); simpl; try lia.
    replace (i mod Z.of_nat n) with (i + Z.of_nat n); [reflexivity|].
    apply Z.mod_unique with (q := -1); lia.
Qed.

Lemma py_index_out (n : nat) (i : Z) :
  i < - Z.of_nat n \/ Z.of_nat n <= i -> py_index n i = None.
Proof.
  intros Hi. unfold py_index.
  destruct (Z.leb_spec 0 i), (Z.ltb_spec i (Z.of_nat n)); simpl; try lia;
  destruct (Z.leb_spec (- Z.of_nat n) i), (Z.ltb_spec i 0); simpl;
    try lia; reflexivity.
Qed.

Lemma py_getitem_nonneg {A} (l : list A) (i : Z) :
  0 <= i -> py_getitem l i = l !! Z.to_nat i.
Proof.
  intros Hi. unfold py_getitem.
  destruct (Z.lt_ge_cases i (Z.of_nat (length l))).
  - rewrite py_index_in by lia. rewrite Z.mod_small by lia. reflexivity.
  - rewrite py_index_out by lia. symmetry. apply lookup_ge_None_2.
    apply Nat2Z.inj_le. rewrite Z2Nat.id; lia.
Qed.

Lemma py_getitem_out {A} (l : list A) (i : Z) :
  i < - Z.of_nat (length l) \/ Z.of_nat (length l) <= i ->
  py_getitem l i = None.
Proof. intros Hi. unfold py_getitem. rewrite py_index_out; auto. Qed.

Lemma square_row {A} n (m : list (list A)) (k : nat) :
  square n m -> Z.of_nat k < n ->
  exists row, m !! k = Some row /\ Z.of_nat (length row) = n.
Proof.
  intros [Hm Hrows] Hk.
  destruct (lookup_lt_is_Some_2 m k) as [row Hrow].
  { apply Nat2Z.inj_lt. lia. }
  exists row. split; [exact Hrow|].
  exact (Forall_lookup_1 _ _ _ _ Hrows Hrow).
Qed.

(** Writing one cell of a square list of lists: the write goes through,
    the shape stays, and exactly the cell denoted by the two indices
    changes. *)
Lemma py_setitem2_square {A} n (m : list (list A)) (r c : Z) (x : A) :
  square n m -> - n <= r < n -> - n <= c < n ->
  exists m',
    py_setitem2 m r c x = Some m' /\ square n m' /\
    forall r' c', 0 <= r' -> 0 <= c' ->
      py_getitem2 m' r' c' =
      if (r' =? r mod n) && (c' =? c mod n) then Some x
      else py_getitem2 m r' c'.
Proof.
  intros Hsq Hr Hc. pose proof Hsq as [Hm Hrows].
  assert (Hrn : 0 <= r mod n < n) by (apply Z.mod_pos_bound; lia).
  assert (Hcn : 0 <= c mod n < n) by (apply Z.mod_pos_bound; lia).
  destruct (square_row n m (Z.to_nat (r mod n)) Hsq) as (row & Hrow & Hlen);
    [lia|].
  unfold py_setitem2, py_getitem, py_setitem.
  rewrite py_index_in by lia. rewrite Hm, Hrow.
  rewrite py_index_in by lia. rewrite Hlen.
  eexists. split; [reflexivity|]. split.
  - split.
    + rewrite length_insert. exact Hm.
    + apply Forall_insert; [exact Hrows|]. rewrite length_insert. exact Hlen.
  - intros r' c' Hr' Hc'. unfold py_getitem2.
    rewrite !(py_getitem_nonneg _ r') by lia.
    destruct (Z.eqb_spec r' (r mod n)) as [->|Hne]; simpl.
    + rewrite list_lookup_insert_eq by (apply Nat2Z.inj_lt; lia).
      rewrite Hrow. rewrite !(py_getitem_nonneg _ c') by lia.
      destruct (Z.eqb_spec c' (c mod n)) as [->|Hne].
      * apply list_lookup_insert_eq. apply Nat2Z.inj_lt. lia.
      * apply list_lookup_insert_ne. intros E. apply Hne.
        apply Z2Nat.inj in E; lia.
    + rewrite list_lookup_insert_ne; [reflexivity|].
      intros E. apply Hne. apply Z2Nat.inj in E; lia.
Qed.

(** ** Running a method *)

Lemma bind_val {A B} (m : M A) (k : A -> M B) g a g' :
  m g = (Val a, g') -> bind m k g = k a g'.
Proof. intros E. unfold bind. rewrite E. reflexivity. Qed.

Lemma existsb_py_range (f : Z -> bool) (a b : Z) :
  existsb f (py_range a b) = true <-> exists i, a <= i < b /\ f i = true.
Proof.
  rewrite existsb_exists. unfold py_range.
  split; intros (i & Hi & Hf); exists i; split; auto.
  - apply list_elem_of_In, elem_of_seqZ in Hi. lia.
  - apply list_elem_of_In, elem_of_seqZ. lia.
Qed.

(** [self.board[r][c] = x] on a square board. *)
Lemma board_setitem_square n g (r c : Z) (x : cell) :
  square n (board g) -> - n <= r < n -> - n <= c < n ->
  exists b',
    board_setitem r c x g = (Val tt, mkGame (board_dimension g) b' (cars g)) /\
    square n b' /\
    forall r' c', 0 <= r' -> 0 <= c' ->
      py_getitem2 b' r' c' =
      if (r' =? r mod n) && (c' =? c mod n) then Some x
      else py_getitem2 (board g) r' c'.
Proof.
  intros Hsq Hr Hc.
  destruct (py_setitem2_square n (board g) r c x Hsq Hr Hc)
    as (b' & E & Hsq' & Hget).
  exists b'. split; [|split; assumption].
  unfold board_setitem, bind, get_board, index_or_raise. rewrite E.
  reflexivity.
Qed.

(** [for i in l: self.board[rho(i)][j] = x]: one column is written, at the
    rows the indices [rho i] denote. *)
Lemma for_setitem_column n (rho : Z -> Z) (j : Z) (x : cell) (l : list Z) :
  forall g,
    square n (board g) -> - n <= j < n ->
    (forall i, In i l -> - n <= rho i < n) ->
    exists b',
      for_ l (fun i => board_setitem (rho i) j x) g
        = (Val tt, mkGame (board_dimension g) b' (cars g)) /\
      square n b' /\
      forall r c, 0 <= r -> 0 <= c ->
        py_getitem2 b' r c =
        if (c =? j mod n) && existsb (fun i => r =? rho i mod n) l then Some x
        else py_getitem2 (board g) r c.
Proof.
  induction l as [|a l IH]; intros g Hsq Hj Hl.
  - exists (board g). split; [destruct g; reflexivity|]. split; [exact Hsq|].
    intros r c _ _. simpl. rewrite andb_false_r. reflexivity.
  - destruct (board_setitem_square n g (rho a) j x Hsq) as (b1 & E1 & Hsq1 & G1);
      [apply Hl; left; reflexivity | exact Hj |].
    destruct (IH (mkGame (board_dimension g) b1 (cars g)) Hsq1 Hj)
      as (b' & E' & Hsq' & G'); [intros i Hi; apply Hl; right; exact Hi|].
    exists b'. split; [|split; [exact Hsq'|]].
    + simpl for_. rewrite (bind_val _ _ _ _ _ E1). exact E'.
    + intros r c Hr Hc. rewrite (G' r c Hr Hc). simpl board.
      rewrite (G1 r c Hr Hc). simpl existsb.
      destruct (c =? j mod n), (r =? rho a mod n), (existsb _ l); reflexivity.
Qed.

(** [for j in l: self.board[i][j] = 0; self.board[i'][j] = x]: row [i] is
    emptied and row [i'] written, at the columns of [l]. *)
Lemma for_setitem_rows n (i i' : Z) (x : cell) (l : list Z) :
  forall g,
    square n (board g) -> - n <= i < n -> - n <= i' < n ->
    (forall j, In j l -> - n <= j < n) ->
    exists b',
      for_ l (fun j => run board_setitem i j Empty; board_setitem i' j x) g
        = (Val tt, mkGame (board_dimension g) b' (cars g)) /\
      square n b' /\
      forall r c, 0 <= r -> 0 <= c ->
        py_getitem2 b' r c =
        if existsb (fun j => c =? j mod n) l then
          if r =? i' mod n then Some x
          else if r =? i mod n then Some Empty
          else py_getitem2 (board g) r c
        else py_getitem2 (board g) r c.
Proof.
  induction l as [|a l IH]; intros g Hsq Hi Hi' Hl.
  - exists (board g). split; [destruct g; reflexivity|]. split; [exact Hsq|].
    intros r c _ _. reflexivity.
  - assert (Ha : - n <= a < n) by (apply Hl; left; reflexivity).
    destruct (board_setitem_square n g i a Empty Hsq Hi Ha)
      as (b1 & E1 & Hsq1 & G1).
    destruct (board_setitem_square n (mkGame (board_dimension g) b1 (cars g))
                i' a x Hsq1 Hi' Ha) as (b2 & E2 & Hsq2 & G2).
    destruct (IH (mkGame (board_dimension g) b2 (cars g)) Hsq2 Hi Hi')
      as (b' & E' & Hsq' & G'); [intros j Hj; apply Hl; right; exact Hj|].
    exists b'. split; [|split; [exact Hsq'|]].
    + simpl for_. erewrite bind_val; [exact E'|].
      rewrite (bind_val _ _ _ _ _ E1). exact E2.
    + intros r c Hr Hc. rewrite (G' r c Hr Hc). simpl board.
      rewrite (G2 r c Hr Hc). simpl board. rewrite (G1 r c Hr Hc).
      simpl existsb.
      destruct (c =? a mod n), (r =? i' mod n), (r =? i mod n),
        (existsb _ l); reflexivity.
Qed.

(** ** What the move helpers write *)

Lemma In_py_range (a b i : Z) : In i (py_range a b) <-> a <= i < b.
Proof.
  unfold py_range. rewrite <- list_elem_of_In, elem_of_seqZ. lia.
Qed.

Section Moves.
Context (n : Z) (g : Game) (car_num : Z) (car : Car).
Hypothesis Hcar : py_getitem (cars g) (car_num - 1) = Some car.
Hypothesis Hsq : square n (board g).

(** A vertical car from row [s] to row [e] of column [j], moved up: the
    rows [s..e] are emptied, then the rows indexed [s-1..e-1] are marked. *)
Lemma _move_up_vertical s j e :
  orientation car = vertical ->
  start_pos car = (s, j) -> fst (end_pos car) = e ->
  0 <= s -> e < n -> 0 <= j < n ->
  exists b',
    _move_up car_num g = (Val tt, mkGame (board_dimension g) b' (cars g)) /\
    square n b' /\
    forall r c, 0 <= r -> 0 <= c ->
      py_getitem2 b' r c =
      if (c =? j) &&
         existsb (fun i => r =? (i - 1) mod n) (py_range s (e + 1))
      then Some V
      else if (c =? j) && existsb (fun i => r =? i mod n) (py_range s (e + 1))
      then Some Empty
      else py_getitem2 (board g) r c.
Proof.
  intros Ho Hs He Hs0 Hen Hj.
  destruct (for_setitem_column n (fun i => i) j Empty (py_range s (e + 1))
              g Hsq)
    as (b1 & E1 & Hsq1 & G1); [lia | intros i Hi; apply In_py_range in Hi; lia |].
  destruct (for_setitem_column n (fun i => i - 1) j V (py_range s (e + 1))
              (mkGame (board_dimension g) b1 (cars g)) Hsq1)
    as (b2 & E2 & Hsq2 & G2); [lia | intros i Hi; apply In_py_range in Hi; lia |].
  exists b2. split; [|split; [exact Hsq2|]].
  - unfold _move_up.
    erewrite bind_val by reflexivity.
    rewrite Hcar. erewrite bind_val by reflexivity.
    rewrite Ho. simpl orient_eqb. simpl cell_eqb. cbv iota.
    erewrite bind_val by reflexivity.
    rewrite Hs, He. simpl in E2.
    erewrite bind_val by exact E1. exact E2.
  - intros r c Hr Hc. rewrite (G2 r c Hr Hc). simpl board.
    rewrite (G1 r c Hr Hc). rewrite (Z.mod_small j n) by lia. reflexivity.
Qed.

(** The same car moved down: the rows [s..e] are emptied, then the rows
    [s+1..e+1] are marked. *)
Lemma _move_down_vertical s j e :
  orientation car = vertical ->
  start_pos car = (s, j) -> fst (end_pos car) = e ->
  0 <= s -> e + 1 < n -> 0 <= j < n ->
  exists b',
    _move_down car_num g = (Val tt, mkGame (board_dimension g) b' (cars g)) /\
    square n b' /\
    forall r c, 0 <= r -> 0 <= c ->
      py_getitem2 b' r c =
      if (c =? j) &&
         existsb (fun i => r =? (i + 1) mod n) (py_range s (e + 1))
      then Some V
      else if (c =? j) && existsb (fun i => r =? i mod n) (py_range s (e + 1))
      then Some Empty
      else py_getitem2 (board g) r c.
Proof.
  intros Ho Hs He Hs0 Hen Hj.
  destruct (for_setitem_column n (fun i => i) j Empty (py_range s (e + 1))
              g Hsq)
    as (b1 & E1 & Hsq1 & G1); [lia | intros i Hi; apply In_py_range in Hi; lia |].
  destruct (for_setitem_column n (fun i => i + 1) j V (py_range s (e + 1))
              (mkGame (board_dimension g) b1 (cars g)) Hsq1)
    as (b2 & E2 & Hsq2 & G2); [lia | intros i Hi; apply In_py_range in Hi; lia |].
  exists b2. split; [|split; [exact Hsq2|]].
  - unfold _move_down.
    erewrite bind_val by reflexivity.
    rewrite Hcar. erewrite bind_val by reflexivity.
    rewrite Ho. simpl orient_eqb. simpl cell_eqb. cbv iota.
    erewrite bind_val by reflexivity.
    rewrite Hs, He. simpl in E2.
    erewrite bind_val by exact E1. exact E2.
  - intros r c Hr Hc. rewrite (G2 r c Hr Hc). simpl board.
    rewrite (G1 r c Hr Hc). rewrite (Z.mod_small j n) by lia. reflexivity.
Qed.

(** A horizontal car in row [i], from column [sj] to column [ej], moved
    up: cell by cell, row [i] is emptied and the row indexed [i-1]
    marked. *)
Lemma _move_up_horizontal i sj ej :
  orientation car = horizontal ->
  start_pos car = (i, sj) -> snd (end_pos car) = ej ->
  0 <= i < n -> 0 <= sj -> ej < n ->
  exists b',
    _move_up car_num g = (Val tt, mkGame (board_dimension g) b' (cars g)) /\
    square n b' /\
    forall r c, 0 <= r -> 0 <= c ->
      py_getitem2 b' r c =
      if existsb (fun j => c =? j mod n) (py_range sj (ej + 1)) then
        if r =? (i - 1) mod n then Some H
        else if r =? i mod n then Some Empty
        else py_getitem2 (board g) r c
      else py_getitem2 (board g) r c.
Proof.
  intros Ho Hs He Hi Hsj Hej.
  destruct (for_setitem_rows n i (i - 1) H (py_range sj (ej + 1)) g Hsq)
    as (b1 & E1 & Hsq1 & G1);
    [lia | lia | intros j Hj; apply In_py_range in Hj; lia |].
  exists b1. split; [|split; [exact Hsq1 | exact G1]].
  unfold _move_up.
  erewrite bind_val by reflexivity.
  rewrite Hcar. erewrite bind_val by reflexivity.
  rewrite Ho. simpl orient_eqb. simpl cell_eqb. cbv iota.
  rewrite Hs, He.
  erewrite bind_val by exact E1. reflexivity.
Qed.

(** The same car moved down: row [i] is emptied and row [i+1] marked. *)
Lemma _move_down_horizontal i sj ej :
  orientation car = horizontal ->
  start_pos car = (i, sj) -> snd (end_pos car) = ej ->
  0 <= i -> i + 1 < n -> 0 <= sj -> ej < n ->
  exists b',
    _move_down car_num g = (Val tt, mkGame (board_dimension g) b' (cars g)) /\
    square n b' /\
    forall r c, 0 <= r -> 0 <= c ->
      py_getitem2 b' r c =
      if existsb (fun j => c =? j mod n) (py_range sj (ej + 1)) then
        if r =? (i + 1) mod n then Some H
        else if r =? i mod n then Some Empty
        else py_getitem2 (board g) r c
      else py_getitem2 (board g) r c.
Proof.
  intros Ho Hs He Hi Hi1 Hsj Hej.
  destruct (for_setitem_rows n i (i + 1) H (py_range sj (ej + 1)) g Hsq)
    as (b1 & E1 & Hsq1 & G1);
    [lia | lia | intros j Hj; apply In_py_range in Hj; lia |].
  exists b1. split; [|split; [exact Hsq1 | exact G1]].
  unfold _move_down.
  erewrite bind_val by reflexivity.
  rewrite Hcar. erewrite bind_val by reflexivity.
  rewrite Ho. simpl orient_eqb. simpl cell_eqb. cbv iota.
  rewrite Hs, He.
  erewrite bind_val by exact E1. reflexivity.
Qed.
End Moves.

(** ** C1: a vertical car in the top row, moved up *)

(** C1, as stated, fails.  From the initial board, car 1 is moved up, the
    board is scanned again (car 1 now starts in row 0) and car 1 is moved
    up once more: the call returns normally instead of being rejected, the
    board changes, and the marker lands in row 4, which was empty in that
    column. *)
Lemma _move_up_at_top_row_not_rejected :
  let g := snd (find_cars (snd (_move_up 1 (snd (find_cars (Game__init__ 5)))))) in
  py_getitem (cars g) 0 = Some (mkCar (0, 2) (1, 2) vertical 2) /\
  fst (_move_up 1 g) = Val tt /\
  board (snd (_move_up 1 g)) <> board g /\
  py_getitem2 (board g) 4 2 = Some Empty /\
  py_getitem2 (board (snd (_move_up 1 g))) 4 2 = Some V.
Proof. vm_compute. repeat split; discriminate. Qed.

(** C1, amended. For every vertical car whose topmost cell is in row 0 of a
    square board, moving it up is not rejected: the helper checks no bound,
    returns normally, leaves the cars and every other column alone, and
    afterwards the rows [0..end-1] of the car's column carry its marker. *)
Theorem _move_up_top_row n g car_num car j e :
  py_getitem (cars g) (car_num - 1) = Some car ->
  square n (board g) ->
  orientation car = vertical ->
  start_pos car = (0, j) -> fst (end_pos car) = e ->
  0 <= e < n -> 0 <= j < n ->
  exists g',
    _move_up car_num g = (Val tt, g') /\
    cars g' = cars g /\
    (forall r, 0 <= r < e -> py_getitem2 (board g') r j = Some V) /\
    (forall r c, 0 <= r -> 0 <= c -> c <> j ->
       py_getitem2 (board g') r c = py_getitem2 (board g) r c).
Proof.
  intros Hcar Hsq Ho Hs He Hen Hj.
  destruct (_move_up_vertical n g car_num car Hcar Hsq 0 j e Ho Hs He)
    as (b' & E & _ & G); [lia | lia | lia |].
  eexists. split; [exact E|]. split; [reflexivity|]. simpl. split.
  - intros r Hr. rewrite G by lia. rewrite Z.eqb_refl. simpl.
    replace (existsb _ _) with true; [reflexivity|].
    symmetry. apply existsb_py_range. exists (r + 1). split; [lia|].
    replace (r + 1 - 1) with r by lia. rewrite Z.mod_small by lia.
    apply Z.eqb_refl.
  - intros r c Hr Hc Hne. rewrite G by lia.
    destruct (Z.eqb_spec c j) as [->|_]; [contradiction | reflexivity].
Qed.

Lemma _move_up_top_row_witness :
  let g := snd (find_cars (snd (_move_up 1 (snd (find_cars (Game__init__ 5)))))) in
  exists g',
    _move_up 1 g = (Val tt, g') /\
    cars g' = cars g /\
    (forall r, 0 <= r < 1 -> py_getitem2 (board g') r 2 = Some V) /\
    (forall r c, 0 <= r -> 0 <= c -> c <> 2 ->
       py_getitem2 (board g') r c = py_getitem2 (board g) r c).
Proof.
  apply (_move_up_top_row 5 _ 1 (mkCar (0, 2) (1, 2) vertical 2) 2 1).
  - reflexivity.
  - split; [reflexivity | repeat constructor].
  - reflexivity.
  - reflexivity.
  - reflexivity.
  - lia.
  - lia.
Defined.

(** ** C2: a horizontal car, moved up or down *)

(** C2, as stated, fails.  On the scanned initial board, moving car 2, the
    horizontal car of row 4, up returns normally and rewrites the board:
    the car is now in row 3. *)
Lemma _move_up_moves_horizontal_car :
  let g := snd (find_cars (Game__init__ 5)) in
  py_getitem (cars g) 1 = Some (mkCar (4, 3) (4, 4) horizontal 2) /\
  fst (_move_up 2 g) = Val tt /\
  board (snd (_move_up 2 g)) <> board g /\
  py_getitem2 (board (snd (_move_up 2 g))) 3 3 = Some H /\
  py_getitem2 (board (snd (_move_up 2 g))) 3 4 = Some H /\
  py_getitem2 (board (snd (_move_up 2 g))) 4 3 = Some Empty /\
  py_getitem2 (board (snd (_move_up 2 g))) 4 4 = Some Empty.
Proof. vm_compute. repeat split; discriminate. Qed.

(** C2, amended. A horizontal car is moved vertically: for a horizontal car
    in row [i] of a square board, [_move_up] (when [1 <= i]) and
    [_move_down] (when [i + 1 < n]) return normally, empty the car's cells
    and write its marker in the row above, respectively below.  No move to
    the left or to the right exists: for every object, every car number
    and every direction the public [move] returns normally and leaves the
    object as it is, so no car, vertical or horizontal, is moved
    horizontally. *)
Theorem horizontal_car_moves_vertically g car_num :
  (forall n car i sj ej,
     py_getitem (cars g) (car_num - 1) = Some car ->
     square n (board g) ->
     orientation car = horizontal ->
     start_pos car = (i, sj) -> snd (end_pos car) = ej ->
     0 <= i < n -> 0 <= sj -> ej < n ->
     (1 <= i ->
      exists g',
        _move_up car_num g = (Val tt, g') /\
        forall c, sj <= c <= ej ->
          py_getitem2 (board g') (i - 1) c = Some H /\
          py_getitem2 (board g') i c = Some Empty) /\
     (i + 1 < n ->
      exists g',
        _move_down car_num g = (Val tt, g') /\
        forall c, sj <= c <= ej ->
          py_getitem2 (board g') (i + 1) c = Some H /\
          py_getitem2 (board g') i c = Some Empty)) /\
  (forall d, move car_num d g = (Val tt, g)).
Proof.
  split; [|intros d; reflexivity].
  intros n car i sj ej Hcar Hsq Ho Hs He Hi Hsj Hej.
  assert (Hcol : forall c, sj <= c <= ej ->
            existsb (fun j => c =? j mod n) (py_range sj (ej + 1)) = true).
  { intros c Hc. apply existsb_py_range. exists c. split; [lia|].
    rewrite Z.mod_small by lia. apply Z.eqb_refl. }
  split.
  - intros Hi1.
    destruct (_move_up_horizontal n g car_num car Hcar Hsq i sj ej Ho Hs He)
      as (b' & E & _ & G); [lia | lia | lia |].
    eexists. split; [exact E|]. simpl. intros c Hc.
    rewrite !G by lia. rewrite (Hcol c Hc).
    rewrite (Z.mod_small (i - 1)), (Z.mod_small i) by lia.
    rewrite Z.eqb_refl.
    destruct (Z.eqb_spec i (i - 1)); [lia|]. rewrite Z.eqb_refl.
    split; reflexivity.
  - intros Hi1.
    destruct (_move_down_horizontal n g car_num car Hcar Hsq i sj ej Ho Hs He)
      as (b' & E & _ & G); [lia | lia | lia | lia |].
    eexists. split; [exact E|]. simpl. intros c Hc.
    rewrite !G by lia. rewrite (Hcol c Hc).
    rewrite (Z.mod_small (i + 1)), (Z.mod_small i) by lia.
    rewrite Z.eqb_refl.
    destruct (Z.eqb_spec i (i + 1)); [lia|]. rewrite Z.eqb_refl.
    split; reflexivity.
Qed.

Lemma horizontal_car_moves_vertically_witness :
  let g := snd (find_cars (mkGame 5 ESTADO_OBJETIVO [])) in
  ((1 <= 2 ->
    exists g',
      _move_up 1 g = (Val tt, g') /\
      forall c, 3 <= c <= 4 ->
        py_getitem2 (board g') (2 - 1) c = Some H /\
        py_getitem2 (board g') 2 c = Some Empty) /\
   (2 + 1 < 5 ->
    exists g',
      _move_down 1 g = (Val tt, g') /\
      forall c, 3 <= c <= 4 ->
        py_getitem2 (board g') (2 + 1) c = Some H /\
        py_getitem2 (board g') 2 c = Some Empty)) /\
  (forall d, move 1 d g = (Val tt, g)).
Proof.
  intros g. split.
  - apply (proj1 (horizontal_car_moves_vertically g 1) 5
             (mkCar (2, 3) (2, 4) horizontal 2) 2 3 4).
    + reflexivity.
    + split; [reflexivity | repeat constructor].
    + reflexivity.
    + reflexivity.
    + reflexivity.
    + lia.
    + lia.
    + lia.
  - apply (proj2 (horizontal_car_moves_vertically g 1)).
Defined.

(** ** C3: moving into an occupied cell *)

(** C3, as stated, fails.  In column 2 a one-cell car marked "h" sits in
    row 0 and a vertical car in rows 1 and 2, with no gap.  Moving the
    vertical car up returns normally, changes the board, and writes "v"
    into the cell of the other car. *)
Lemma _move_up_overwrites_other_car :
  let b := [ [Empty; Empty; H; Empty; Empty];
             [Empty; Empty; V; Empty; Empty];
             [Empty; Empty; V; Empty; Empty];
             [Empty; Empty; Empty; Empty; Empty];
             [Empty; Empty; Empty; Empty; Empty] ] in
  let g := snd (find_cars (mkGame 5 b [])) in
  cars g = [ mkCar (0, 2) (0, 2) horizontal 1;
             mkCar (1, 2) (2, 2) vertical 2 ] /\
  fst (_move_up 2 g) = Val tt /\
  board (snd (_move_up 2 g)) <> board g /\
  py_getitem2 (board g) 0 2 = Some H /\
  py_getitem2 (board (snd (_move_up 2 g))) 0 2 = Some V.
Proof. vm_compute. repeat split; discriminate. Qed.

(** C3, amended. The helpers check no collision: for every vertical car in
    rows [s..e] of column [j] of a square board, whatever the neighbouring
    cell holds, [_move_up] (when [1 <= s]) returns normally and leaves the
    car's marker in the cell above the car, [(s-1, j)], with [(e, j)]
    emptied; [_move_down] (when [e + 1 < n]) does the same towards the cell
    below, [(e+1, j)], with [(s, j)] emptied. *)
Theorem vertical_move_overwrites_neighbour n g car_num car s j e :
  py_getitem (cars g) (car_num - 1) = Some car ->
  square n (board g) ->
  orientation car = vertical ->
  start_pos car = (s, j) -> fst (end_pos car) = e ->
  0 <= s <= e -> e < n -> 0 <= j < n ->
  (1 <= s ->
   exists g',
     _move_up car_num g = (Val tt, g') /\
     py_getitem2 (board g') (s - 1) j = Some V /\
     py_getitem2 (board g') e j = Some Empty) /\
  (e + 1 < n ->
   exists g',
     _move_down car_num g = (Val tt, g') /\
     py_getitem2 (board g') (e + 1) j = Some V /\
     py_getitem2 (board g') s j = Some Empty).
Proof.
  intros Hcar Hsq Ho Hs He Hse Hen Hj. split.
  - intros Hs1.
    destruct (_move_up_vertical n g car_num car Hcar Hsq s j e Ho Hs He)
      as (b' & E & _ & G); [lia | lia | lia |].
    eexists. split; [exact E|]. simpl. rewrite !G by lia.
    rewrite Z.eqb_refl. simpl. split.
    + replace (existsb _ _) with true; [reflexivity|].
      symmetry. apply existsb_py_range. exists s. split; [lia|].
      rewrite Z.mod_small by lia. apply Z.eqb_refl.
    + replace (existsb (fun i => e =? (i - 1) mod n) _) with false.
      * replace (existsb _ _) with true; [reflexivity|].
        symmetry. apply existsb_py_range. exists e. split; [lia|].
        rewrite Z.mod_small by lia. apply Z.eqb_refl.
      * symmetry. apply not_true_is_false. intros Hex.
        apply existsb_py_range in Hex. destruct Hex as (i & Hi & Hex).
        rewrite Z.mod_small in Hex by lia. apply Z.eqb_eq in Hex. lia.
  - intros He1.
    destruct (_move_down_vertical n g car_num car Hcar Hsq s j e Ho Hs He)
      as (b' & E & _ & G); [lia | lia | lia |].
    eexists. split; [exact E|]. simpl. rewrite !G by lia.
    rewrite Z.eqb_refl. simpl. split.
    + replace (existsb _ _) with true; [reflexivity|].
      symmetry. apply existsb_py_range. exists e. split; [lia|].
      rewrite Z.mod_small by lia. apply Z.eqb_refl.
    + replace (existsb (fun i => s =? (i + 1) mod n) _) with false.
      * replace (existsb _ _) with true; [reflexivity|].
        symmetry. apply existsb_py_range. exists s. split; [lia|].
        rewrite Z.mod_small by lia. apply Z.eqb_refl.
      * symmetry. apply not_true_is_false. intros Hex.
        apply existsb_py_range in Hex. destruct Hex as (i & Hi & Hex).
        rewrite Z.mod_small in Hex by lia. apply Z.eqb_eq in Hex. lia.
Qed.

Lemma vertical_move_overwrites_neighbour_witness :
  let b := [ [Empty; Empty; H; Empty; Empty];
             [Empty; Empty; V; Empty; Empty];
             [Empty; Empty; V; Empty; Empty];
             [Empty; Empty; Empty; Empty; Empty];
             [Empty; Empty; Empty; Empty; Empty] ] in
  let g := snd (find_cars (mkGame 5 b [])) in
  (1 <= 1 ->
   exists g',
     _move_up 2 g = (Val tt, g') /\
     py_getitem2 (board g') (1 - 1) 2 = Some V /\
     py_getitem2 (board g') 2 2 = Some Empty) /\
  (2 + 1 < 5 ->
   exists g',
     _move_down 2 g = (Val tt, g') /\
     py_getitem2 (board g') (2 + 1) 2 = Some V /\
     py_getitem2 (board g') 1 2 = Some Empty).
Proof.
  apply (vertical_move_overwrites_neighbour 5 _ 2
           (mkCar (1, 2) (2, 2) vertical 2) 1 2 2).
  - reflexivity.
  - split; [reflexivity | repeat constructor].
  - reflexivity.
  - reflexivity.
  - reflexivity.
  - lia.
  - lia.
  - lia.
Defined.

(** ** C6: a car number out of range *)

(** C6, as stated, fails.  The scanned initial board has two cars; car
    number 0 is none of them, yet [_move_up 0] raises nothing and moves the
    last car of the collection, the horizontal one, from row 4 to row 3. *)
Lemma _move_up_car_number_0_moves_last_car :
  let g := snd (find_cars (Game__init__ 5)) in
  length (cars g) = 2%nat /\
  fst (_move_up 0 g) = Val tt /\
  board (snd (_move_up 0 g)) <> board g /\
  board (snd (_move_up 0 g)) = board (snd (_move_up 2 g)).
Proof. vm_compute. repeat split; discriminate. Qed.

(** C6, amended. For every car number whose index [car_num - 1] is at least
    the number of cars, or below its opposite, both helpers raise
    [IndexError] at once and leave the object, board and cars, as it was. *)
Theorem move_car_number_out_of_range (g : Game) (car_num : Z) :
  car_num - 1 < - Z.of_nat (length (cars g)) \/
  Z.of_nat (length (cars g)) <= car_num - 1 ->
  _move_up car_num g = (Raise IndexError, g) /\
  _move_down car_num g = (Raise IndexError, g).
Proof.
  intros Hout. pose proof (py_getitem_out (cars g) (car_num - 1) Hout) as E.
  unfold _move_up, _move_down.
  split; erewrite bind_val by reflexivity; rewrite E; reflexivity.
Qed.

Lemma move_car_number_out_of_range_witness :
  let g := snd (find_cars (Game__init__ 5)) in
  _move_up 3 g = (Raise IndexError, g) /\
  _move_down 3 g = (Raise IndexError, g).
Proof.
  apply (move_car_number_out_of_range (snd (find_cars (Game__init__ 5))) 3).
  right. vm_compute. discriminate.
Defined.

(** ** C7: the goal check *)

Lemma target_cells_eq : target_cells = [(2, 3, H); (2, 4, H)].
Proof. vm_compute. reflexivity. Qed.

(** C7. The goal check reads the board only (it is a function of the
    board) and answers true exactly when the two cells of the target
    region, row 2 and columns 3 and 4, both carry the horizontal marker;
    in particular it answers true on every board whose target region is
    covered by that marker. *)
Theorem isSolved_iff (b : list (list cell)) :
  isSolved b = true <->
  py_getitem2 b 2 3 = Some H /\ py_getitem2 b 2 4 = Some H.
Proof.
  unfold isSolved. rewrite target_cells_eq. simpl forallb.
  rewrite andb_true_r, andb_true_iff.
  destruct (py_getitem2 b 2 3) as [[| |]|], (py_getitem2 b 2 4) as [[| |]|];
    simpl; split; intros [? ?]; try discriminate; split; reflexivity.
Qed.

Example isSolved_ESTADO_OBJETIVO : isSolved ESTADO_OBJETIVO = true.
Proof. reflexivity. Qed.

Example isSolved_ESTADO_INICIAL : isSolved ESTADO_INICIAL = false.
Proof. reflexivity. Qed.

(** ** The search terminates *)

Lemma count_false_mark (row : list bool) (k : nat) :
  row !! k = Some false ->
  (count_false (<[k:=true]> row) + 1 = count_false row)%nat.
Proof.
  revert k. induction row as [|x row IH]; intros [|k]; simpl; try discriminate.
  - intros [= ->]. lia.
  - intros Hk. specialize (IH k Hk). lia.
Qed.

Lemma unvisited_insert (visited : list (list bool)) (k : nat) row row' :
  visited !! k = Some row ->
  (unvisited (<[k:=row']> visited) + count_false row
   = unvisited visited + count_false row')%nat.
Proof.
  revert k. induction visited as [|y visited IH]; intros [|k]; simpl;
    try discriminate.
  - intros [= ->]. lia.
  - intros Hk. specialize (IH k Hk). lia.
Qed.

(** Marking a cell that was [False] leaves one unvisited cell less. *)
Lemma unvisited_mark (visited visited' : list (list bool)) (r c : Z) :
  0 <= r -> 0 <= c ->
  py_getitem2 visited r c = Some false ->
  py_setitem2 visited r c true = Some visited' ->
  (unvisited visited' + 1 = unvisited visited)%nat.
Proof.
  intros Hr Hc. unfold py_getitem2, py_setitem2, py_getitem, py_setitem.
  destruct (py_index (length visited) r) as [kr|] eqn:Er; [|discriminate].
  destruct (visited !! kr) as [row|] eqn:Erow; [|discriminate].
  destruct (py_index (length row) c) as [kc|] eqn:Ec; [|discriminate].
  intros Hget [= <-].
  pose proof (count_false_mark row kc Hget).
  pose proof (unvisited_insert visited kr row (<[kc:=true]> row) Erow).
  lia.
Qed.

(** A turn of the loop that does not raise lowers the measure. *)
Lemma dfs_body_measure dim b car_type o visited car_parts curr stack
      visited' car_parts' stack' :
  dfs_body dim b car_type o visited car_parts curr stack
    = Val (visited', car_parts', stack') ->
  (dfs_measure visited' stack' < dfs_measure visited (curr :: stack))%nat.
Proof.
  unfold dfs_body, dfs_measure. destruct curr as [curr_r curr_c].
  destruct (Z.leb_spec 0 curr_r), (Z.ltb_spec curr_r dim),
    (Z.leb_spec 0 curr_c), (Z.ltb_spec curr_c dim); simpl;
    try (intros [= <- <- <-]; lia).
  destruct (py_getitem2 visited curr_r curr_c) as [[|]|] eqn:Evis;
    try discriminate; try (intros [= <- <- <-]; lia).
  destruct (py_getitem2 b curr_r curr_c) as [x|]; [|discriminate].
  destruct (negb (cell_eqb x car_type)); [intros [= <- <- <-]; lia|].
  destruct (py_setitem2 visited curr_r curr_c true) as [v|] eqn:Eset;
    [|discriminate].
  intros [= <- <- <-].
  pose proof (unvisited_mark visited v curr_r curr_c
                ltac:(lia) ltac:(lia) Evis Eset).
  rewrite length_app. unfold neighbours. destruct (orient_eqb o horizontal);
    simpl; lia.
Qed.

(** With at least [dfs_measure] turns allowed the loop is never cut. *)
Lemma dfs_fuel_enough dim b car_type o fuel :
  forall visited car_parts stack,
    (dfs_measure visited stack <= fuel)%nat ->
    exists res,
      dfs_fuel fuel dim b car_type o visited car_parts stack = Some res.
Proof.
  induction fuel as [|fuel IH]; intros visited car_parts stack Hm.
  - destruct stack as [|curr stack]; [eexists; reflexivity|].
    unfold dfs_measure in Hm. simpl in Hm. lia.
  - destruct stack as [|curr stack]; [eexists; reflexivity|]. simpl.
    destruct (dfs_body dim b car_type o visited car_parts curr stack)
      as [[[v p] s]|e] eqn:E; [|eexists; reflexivity].
    apply IH. apply dfs_body_measure in E. lia.
Qed.

(** More turns allowed do not change a result. *)
Lemma dfs_fuel_more dim b car_type o fuel :
  forall fuel' visited car_parts stack res,
    dfs_fuel fuel dim b car_type o visited car_parts stack = Some res ->
    (fuel <= fuel')%nat ->
    dfs_fuel fuel' dim b car_type o visited car_parts stack = Some res.
Proof.
  induction fuel as [|fuel IH]; intros fuel' visited car_parts stack res.
  - destruct stack; simpl; [|discriminate].
    intros E _. destruct fuel'; exact E.
  - intros E Hle. destruct fuel' as [|fuel']; [lia|].
    destruct stack as [|curr stack]; [exact E|]. simpl in *.
    destruct (dfs_body dim b car_type o visited car_parts curr stack)
      as [[[v p] s]|e]; [|exact E].
    apply IH; [exact E | lia].
Qed.

(** The equations of the [while] loop. *)
Lemma dfs_nil dim b car_type o visited car_parts :
  dfs dim b car_type o visited car_parts [] = Val (visited, car_parts).
Proof. unfold dfs. destruct (dfs_measure visited []); reflexivity. Qed.

Lemma dfs_cons dim b car_type o visited car_parts curr stack :
  dfs dim b car_type o visited car_parts (curr :: stack) =
  match dfs_body dim b car_type o visited car_parts curr stack with
  | Raise e => Raise e
  | Val (visited', car_parts', stack') =>
      dfs dim b car_type o visited' car_parts' stack'
  end.
Proof.
  unfold dfs at 1.
  destruct (dfs_measure visited (curr :: stack)) as [|fuel] eqn:Em;
    [unfold dfs_measure in Em; simpl in Em; lia|].
  simpl.
  destruct (dfs_body dim b car_type o visited car_parts curr stack)
    as [[[v p] s]|e] eqn:E; [|reflexivity].
  pose proof (dfs_body_measure _ _ _ _ _ _ _ _ _ _ _ E) as Hlt.
  rewrite Em in Hlt. unfold dfs.
  destruct (dfs_fuel_enough dim b car_type o (dfs_measure v s) v p s)
    as [res Hres]; [lia|].
  rewrite Hres. rewrite (dfs_fuel_more _ _ _ _ _ fuel _ _ _ _ Hres); [|lia].
  reflexivity.
Qed.

(** ** What one search collects *)

Lemma square_getitem2 {A} n (m : list (list A)) (r c : Z) :
  square n m -> 0 <= r < n -> 0 <= c < n ->
  exists x, py_getitem2 m r c = Some x.
Proof.
  intros Hsq Hr Hc.
  destruct (square_row n m (Z.to_nat r) Hsq) as (row & Hrow & Hlen); [lia|].
  unfold py_getitem2. rewrite py_getitem_nonneg, Hrow by lia.
  rewrite py_getitem_nonneg by lia.
  apply lookup_lt_is_Some_2. apply Nat2Z.inj_lt. lia.
Qed.

Lemma neighbours_axis o r c :
  neighbours o r c =
  [ (r - fst (axis o), c - snd (axis o));
    (r + fst (axis o), c + snd (axis o)) ].
Proof.
  unfold neighbours, axis. destruct (orient_eqb o horizontal); simpl;
    repeat f_equal; lia.
Qed.

Lemma axis_cases o : axis o = (0, 1) \/ axis o = (1, 0).
Proof. unfold axis. destruct (orient_eqb o horizontal); auto. Qed.

Lemma cell_eqb_eq x y : cell_eqb x y = true <-> x = y.
Proof. destruct x, y; simpl; split; intros E; try reflexivity; discriminate. Qed.

Lemma mem_In S r c : mem S r c = true <-> In (r, c) S.
Proof.
  unfold mem. rewrite existsb_exists. split.
  - intros ([r' c'] & Hin & E). simpl in E.
    apply andb_true_iff in E. destruct E as [E1 E2].
    apply Z.eqb_eq in E1, E2. subst. exact Hin.
  - intros Hin. exists (r, c). split; [exact Hin|]. simpl.
    rewrite !Z.eqb_refl. reflexivity.
Qed.

Lemma mem_app S1 S2 r c : mem (S1 ++ S2) r c = mem S1 r c || mem S2 r c.
Proof. unfold mem. apply existsb_app. Qed.

Lemma grows_nil n visited : square n visited -> grows n visited visited [].
Proof. intros Hsq. split; [exact Hsq|]. intros r c _ _. reflexivity. Qed.

Lemma grows_app n v1 v2 v3 S1 S2 :
  grows n v1 v2 S1 -> grows n v2 v3 S2 -> grows n v1 v3 (S1 ++ S2).
Proof.
  intros [_ G1] [Hsq G2]. split; [exact Hsq|].
  intros r c Hr Hc. rewrite G2, G1, mem_app by assumption.
  destruct (mem S1 r c), (mem S2 r c); reflexivity.
Qed.

Section Fresh.
Context (n : Z) (b : list (list cell)) (car_type : cell).

Lemma fresh_true visited r c :
  fresh n b car_type visited (r, c) = true <->
  (0 <= r < n /\ 0 <= c < n) /\
  py_getitem2 visited r c = Some false /\
  py_getitem2 b r c = Some car_type.
Proof.
  unfold fresh. rewrite !andb_true_iff.
  rewrite !Z.leb_le, !Z.ltb_lt. split.
  - intros [[[[[? ?] ?] ?] Hv] Hb].
    destruct (py_getitem2 visited r c) as [[|]|]; try discriminate.
    destruct (py_getitem2 b r c) as [x|]; [|discriminate].
    apply cell_eqb_eq in Hb. subst. repeat split; assumption.
  - intros [[[? ?] [? ?]] [-> ->]]. repeat split; try assumption.
    apply cell_eqb_eq. reflexivity.
Qed.

(** A cell marked since then is no longer fresh, a cell that is still
    fresh was fresh before. *)
Lemma fresh_grows visited visited' S r c :
  grows n visited visited' S ->
  fresh n b car_type visited' (r, c) =
  negb (mem S r c) && fresh n b car_type visited (r, c).
Proof.
  intros [_ G]. unfold fresh.
  destruct (Z.leb_spec 0 r), (Z.leb_spec 0 c); simpl;
    rewrite ?andb_false_r; try reflexivity.
  rewrite G by assumption.
  destruct (mem S r c); simpl; [|reflexivity].
  rewrite andb_false_r. reflexivity.
Qed.

Lemma seen_grows visited visited' S r c :
  grows n visited visited' S -> 0 <= r -> 0 <= c ->
  py_getitem2 visited r c = Some true ->
  py_getitem2 visited' r c = Some true.
Proof.
  intros [_ G] Hr Hc Hseen. rewrite G by assumption.
  destruct (mem S r c); [reflexivity | exact Hseen].
Qed.

Lemma seen_not_fresh visited r c :
  py_getitem2 visited r c = Some true ->
  fresh n b car_type visited (r, c) = false.
Proof.
  intros Hseen. unfold fresh. rewrite Hseen. simpl.
  rewrite andb_false_r. reflexivity.
Qed.

Context (Hb : square n b) (o : orient).

(** A turn of the loop on a cell that is not fresh only pops it. *)
Lemma dfs_body_skip visited car_parts p stack :
  square n visited ->
  fresh n b car_type visited p = false ->
  dfs_body n b car_type o visited car_parts p stack
    = Val (visited, car_parts, stack).
Proof.
  intros Hsq Hf. destruct p as [r c]. unfold dfs_body, fresh in *.
  destruct (Z.leb_spec 0 r), (Z.ltb_spec r n),
    (Z.leb_spec 0 c), (Z.ltb_spec c n); simpl in *; try reflexivity.
  destruct (square_getitem2 n visited r c Hsq) as [v Hv]; [lia | lia |].
  destruct (square_getitem2 n b r c Hb) as [x Hx]; [lia | lia |].
  rewrite Hv, Hx in *. destruct v; [reflexivity|].
  simpl in Hf. rewrite Hf. reflexivity.
Qed.

(** A turn of the loop on a fresh cell marks it, records it and pushes its
    two neighbours along the axis. *)
Lemma dfs_body_visit visited car_parts r c stack :
  square n visited ->
  fresh n b car_type visited (r, c) = true ->
  exists visited',
    grows n visited visited' [(r, c)] /\
    (unvisited visited' + 1 = unvisited visited)%nat /\
    dfs_body n b car_type o visited car_parts (r, c) stack
      = Val (visited', car_parts ++ [(r, c)],
             [ (r - fst (axis o), c - snd (axis o));
               (r + fst (axis o), c + snd (axis o)) ] ++ stack).
Proof.
  intros Hsq Hf. apply fresh_true in Hf.
  destruct Hf as [[Hr Hc] [Hv Hx]].
  destruct (py_setitem2_square n visited r c true Hsq)
    as (visited' & Eset & Hsq' & G); [lia | lia |].
  exists visited'. split; [|split].
  - split; [exact Hsq'|]. intros r' c' Hr' Hc'. rewrite G by assumption.
    unfold mem. simpl. rewrite !Z.mod_small by lia.
    rewrite orb_false_r. reflexivity.
  - apply (unvisited_mark visited visited' r c); try assumption; lia.
  - unfold dfs_body.
    destruct (Z.leb_spec 0 r), (Z.ltb_spec r n),
      (Z.leb_spec 0 c), (Z.ltb_spec c n); simpl; try lia.
    rewrite Hv, Hx, Eset.
    replace (cell_eqb car_type car_type) with true
      by (symmetry; apply cell_eqb_eq; reflexivity).
    simpl. rewrite neighbours_axis. reflexivity.
Qed.
End Fresh.

(** The cells a search explores lie on one line through its first cell. *)
Section Search.
Context (n : Z) (b : list (list cell)) (Hb : square n b).
Context (car_type : cell) (o : orient) (r0 c0 : Z).

Local Abbreviation pt := (line_point o r0 c0).

Lemma line_point_inj t1 t2 : pt t1 = pt t2 -> t1 = t2.
Proof.
  unfold line_point. destruct (axis_cases o) as [-> | ->]; simpl;
    intros [= E1 E2]; lia.
Qed.

Lemma mem_line_point t t' :
  t <> t' -> mem [pt t] (fst (pt t')) (snd (pt t')) = false.
Proof.
  intros Hne. apply not_true_is_false. intros Hm.
  apply mem_In in Hm. destruct Hm as [E | []].
  rewrite <- surjective_pairing in E. apply line_point_inj in E. lia.
Qed.

Lemma line_point_neighbours t :
  [ (fst (pt t) - fst (axis o), snd (pt t) - snd (axis o));
    (fst (pt t) + fst (axis o), snd (pt t) + snd (axis o)) ]
  = [ pt (t - 1); pt (t + 1) ].
Proof. unfold line_point. simpl. f_equal; [|f_equal]; f_equal; ring. Qed.

Lemma seen_fresh visited p :
  seen visited p -> fresh n b car_type visited p = false.
Proof.
  intros (_ & _ & Hs). destruct p as [r c]. apply seen_not_fresh. exact Hs.
Qed.

Lemma seen_after visited visited' S p :
  grows n visited visited' S -> seen visited p -> seen visited' p.
Proof.
  intros G (Hr & Hc & Hs). repeat split; try assumption.
  exact (seen_grows n visited visited' S _ _ G Hr Hc Hs).
Qed.

Lemma seen_marked visited visited' p :
  grows n visited visited' [p] -> 0 <= fst p -> 0 <= snd p -> seen visited' p.
Proof.
  intros [_ G] Hr Hc. repeat split; try assumption.
  rewrite G by assumption. unfold mem. simpl. rewrite !Z.eqb_refl. reflexivity.
Qed.

Lemma dfs_skip visited car_parts p stack :
  square n visited ->
  fresh n b car_type visited p = false ->
  dfs n b car_type o visited car_parts (p :: stack)
    = dfs n b car_type o visited car_parts stack.
Proof.
  intros Hsq Hf. rewrite dfs_cons.
  rewrite (dfs_body_skip n b car_type Hb o _ _ _ _ Hsq Hf). reflexivity.
Qed.

Lemma dfs_visit visited car_parts t stack :
  square n visited ->
  fresh n b car_type visited (pt t) = true ->
  exists visited',
    grows n visited visited' [pt t] /\
    (unvisited visited' + 1 = unvisited visited)%nat /\
    seen visited' (pt t) /\
    dfs n b car_type o visited car_parts (pt t :: stack)
      = dfs n b car_type o visited' (car_parts ++ [pt t])
            (pt (t - 1) :: pt (t + 1) :: stack).
Proof.
  intros Hsq Hf. rewrite (surjective_pairing (pt t)) in Hf.
  destruct (dfs_body_visit n b car_type o visited car_parts _ _ stack Hsq Hf)
    as (visited' & G & Hcount & Ebody).
  rewrite <- surjective_pairing in G, Ebody.
  apply fresh_true in Hf. destruct Hf as [[Hr Hc] _].
  exists visited'. split; [exact G|]. split; [exact Hcount|]. split.
  - apply (seen_marked visited); [exact G | lia | lia].
  - rewrite dfs_cons, Ebody.
    change (?a :: ?b :: stack) with ([a; b] ++ stack).
    rewrite line_point_neighbours. reflexivity.
Qed.

Lemma sweep_stop (sigma : Z) visited t car_parts stack :
  square n visited ->
  fresh n b car_type visited (pt t) = false ->
  exists k S visited',
    0 <= k /\
    dfs n b car_type o visited car_parts (pt t :: stack)
      = dfs n b car_type o visited' (car_parts ++ S) stack /\
    grows n visited visited' S /\
    (forall p, In p S <-> exists i, 0 <= i < k /\ p = pt (t + sigma * i)) /\
    (forall i, 0 <= i < k ->
       fresh n b car_type visited (pt (t + sigma * i)) = true) /\
    fresh n b car_type visited (pt (t + sigma * k)) = false.
Proof.
  intros Hsq Ef. exists 0, [], visited. split; [lia|]. split; [|split; [|split; [|split]]].
  - rewrite app_nil_r. apply dfs_skip; assumption.
  - apply grows_nil. exact Hsq.
  - intros p. split; [intros [] | intros (i & Hi & _); lia].
  - intros i Hi. lia.
  - replace (t + sigma * 0) with t by lia. exact Ef.
Qed.

Lemma sweep (sigma : Z) :
  sigma = 1 \/ sigma = -1 ->
  forall (m : nat) visited t car_parts stack,
    (unvisited visited <= m)%nat -> square n visited ->
    seen visited (pt (t - sigma)) ->
    exists k S visited',
      0 <= k /\
      dfs n b car_type o visited car_parts (pt t :: stack)
        = dfs n b car_type o visited' (car_parts ++ S) stack /\
      grows n visited visited' S /\
      (forall p, In p S <-> exists i, 0 <= i < k /\ p = pt (t + sigma * i)) /\
      (forall i, 0 <= i < k ->
         fresh n b car_type visited (pt (t + sigma * i)) = true) /\
      fresh n b car_type visited (pt (t + sigma * k)) = false.
Proof.
  intros Hsigma. induction m as [|m IH];
    intros visited t car_parts stack Hm Hsq Hpred;
    destruct (fresh n b car_type visited (pt t)) eqn:Ef;
    try (apply sweep_stop; assumption).
  - destruct (dfs_visit visited car_parts t stack Hsq Ef) as (v1 & _ & Hc & _).
    lia.
  - destruct (dfs_visit visited car_parts t stack Hsq Ef)
      as (v1 & G1 & Hc & Hseen1 & E1).
    pose proof G1 as [Hsq1 _].
    destruct Hsigma as [-> | ->].
    + (* forward *)
      rewrite (dfs_skip v1 _ (pt (t - 1)) (pt (t + 1) :: stack)) in E1;
        [| exact Hsq1 | apply seen_fresh, (seen_after visited _ [pt t]); assumption].
      destruct (IH v1 (t + 1) (car_parts ++ [pt t]) stack) as
        (k & S & v2 & Hk & E2 & G2 & HS & Hfr & Hend);
        [lia | exact Hsq1 | replace (t + 1 - 1) with t by lia; exact Hseen1 |].
      exists (k + 1), (pt t :: S), v2. split; [lia|].
      split; [|split; [|split; [|split]]].
      * rewrite E1, E2, <- app_assoc. reflexivity.
      * exact (grows_app n _ _ _ [pt t] S G1 G2).
      * intros p. split.
        -- intros [<- | Hin].
           ++ exists 0. split; [lia|]. f_equal. lia.
           ++ apply HS in Hin. destruct Hin as (i & Hi & ->).
              exists (i + 1). split; [lia|]. f_equal. lia.
        -- intros (i & Hi & ->).
           destruct (Z.eq_dec i 0) as [-> | Hne].
           ++ left. f_equal. lia.
           ++ right. apply HS. exists (i - 1). split; [lia|]. f_equal. lia.
      * intros i Hi. destruct (Z.eq_dec i 0) as [-> | Hne].
        -- replace (t + 1 * 0) with t by lia. exact Ef.
        -- specialize (Hfr (i - 1) ltac:(lia)).
           replace (t + 1 + 1 * (i - 1)) with (t + 1 * i) in Hfr by lia.
           rewrite (surjective_pairing (pt (t + 1 * i))) in Hfr |- *.
           rewrite (fresh_grows n b car_type _ _ _ _ _ G1) in Hfr.
           apply andb_true_iff in Hfr. apply Hfr.
      * replace (t + 1 + 1 * k) with (t + 1 * (k + 1)) in Hend by lia.
        rewrite (surjective_pairing (pt (t + 1 * (k + 1)))) in Hend |- *.
        rewrite (fresh_grows n b car_type _ _ _ _ _ G1) in Hend.
        rewrite mem_line_point in Hend by lia. exact Hend.
    + (* backward *)
      destruct (IH v1 (t - 1) (car_parts ++ [pt t]) (pt (t + 1) :: stack)) as
        (k & S & v2 & Hk & E2 & G2 & HS & Hfr & Hend);
        [lia | exact Hsq1 | replace (t - 1 - -1) with t by lia; exact Hseen1 |].
      pose proof G2 as [Hsq2 _].
      rewrite (dfs_skip v2 _ (pt (t + 1)) stack) in E2;
        [| exact Hsq2 |].
      2:{ apply seen_fresh. apply (seen_after v1 _ S); [exact G2|].
          apply (seen_after visited _ [pt t]); [exact G1|].
          replace (t + 1) with (t - -1) by lia. exact Hpred. }
      exists (k + 1), (pt t :: S), v2. split; [lia|].
      split; [|split; [|split; [|split]]].
      * rewrite E1, E2, <- app_assoc. reflexivity.
      * exact (grows_app n _ _ _ [pt t] S G1 G2).
      * intros p. split.
        -- intros [<- | Hin].
           ++ exists 0. split; [lia|]. f_equal. lia.
           ++ apply HS in Hin. destruct Hin as (i & Hi & ->).
              exists (i + 1). split; [lia|]. f_equal. lia.
        -- intros (i & Hi & ->).
           destruct (Z.eq_dec i 0) as [-> | Hne].
           ++ left. f_equal. lia.
           ++ right. apply HS. exists (i - 1). split; [lia|]. f_equal. lia.
      * intros i Hi. destruct (Z.eq_dec i 0) as [-> | Hne].
        -- replace (t + -1 * 0) with t by lia. exact Ef.
        -- specialize (Hfr (i - 1) ltac:(lia)).
           replace (t - 1 + -1 * (i - 1)) with (t + -1 * i) in Hfr by lia.
           rewrite (surjective_pairing (pt (t + -1 * i))) in Hfr |- *.
           rewrite (fresh_grows n b car_type _ _ _ _ _ G1) in Hfr.
           apply andb_true_iff in Hfr. apply Hfr.
      * replace (t - 1 + -1 * k) with (t + -1 * (k + 1)) in Hend by lia.
        rewrite (surjective_pairing (pt (t + -1 * (k + 1)))) in Hend |- *.
        rewrite (fresh_grows n b car_type _ _ _ _ _ G1) in Hend.
        rewrite mem_line_point in Hend by lia. exact Hend.
Qed.

Lemma line_point_0 : pt 0 = (r0, c0).
Proof. unfold line_point. f_equal; lia. Qed.

Lemma fresh_before visited visited' S t :
  grows n visited visited' S ->
  fresh n b car_type visited' (pt t) = true ->
  fresh n b car_type visited (pt t) = true.
Proof.
  intros G Hf. rewrite (surjective_pairing (pt t)) in Hf |- *.
  rewrite (fresh_grows n b car_type _ _ _ _ _ G) in Hf.
  apply andb_true_iff in Hf. apply Hf.
Qed.

Lemma not_fresh_before visited visited' S t :
  grows n visited visited' S ->
  ~ In (pt t) S ->
  fresh n b car_type visited' (pt t) = false ->
  fresh n b car_type visited (pt t) = false.
Proof.
  intros G Hin Hf. rewrite (surjective_pairing (pt t)) in Hf |- *.
  rewrite (fresh_grows n b car_type _ _ _ _ _ G) in Hf.
  destruct (mem S (pt t).1 (pt t).2) eqn:Em; [|exact Hf].
  apply mem_In in Em. rewrite <- surjective_pairing in Em. contradiction.
Qed.

(** Started on a fresh cell, the search returns the cells of the longest
    stretch of fresh cells through it, [kb] cells backwards and [kf] cells
    forwards along the axis, and marks exactly these. *)
Lemma dfs_from_fresh visited :
  square n visited ->
  fresh n b car_type visited (pt 0) = true ->
  exists kb kf S visited',
    0 <= kb /\ 0 <= kf /\
    dfs n b car_type o visited [] [pt 0] = Val (visited', S) /\
    grows n visited visited' S /\
    (forall p, In p S <-> exists t, - kb <= t <= kf /\ p = pt t) /\
    (forall t, - kb <= t <= kf -> fresh n b car_type visited (pt t) = true) /\
    fresh n b car_type visited (pt (- kb - 1)) = false /\
    fresh n b car_type visited (pt (kf + 1)) = false.
Proof.
  intros Hsq Ef.
  destruct (dfs_visit visited [] 0 [] Hsq Ef) as (v1 & G1 & _ & Hseen1 & E1).
  pose proof G1 as [Hsq1 _].
  destruct (sweep (-1) (or_intror eq_refl) (unvisited v1) v1 (0 - 1)
              ([] ++ [pt 0]) [pt (0 + 1)])
    as (kb & Sb & v2 & Hkb & E2 & G2 & HSb & Hfb & Hendb);
    [lia | exact Hsq1 | replace (0 - 1 - -1) with 0 by lia; exact Hseen1 |].
  pose proof G2 as [Hsq2 _].
  pose proof (grows_app n _ _ _ _ _ G1 G2) as G12.
  destruct (sweep 1 (or_introl eq_refl) (unvisited v2) v2 (0 + 1)
              (([] ++ [pt 0]) ++ Sb) [])
    as (kf & Sf & v3 & Hkf & E3 & G3 & HSf & Hff & Hendf);
    [lia | exact Hsq2 | |].
  { apply (seen_after v1 _ Sb); [exact G2|].
    replace (0 + 1 - 1) with 0 by lia. exact Hseen1. }
  pose proof (grows_app n _ _ _ _ _ G12 G3) as G123.
  assert (HS12 : forall p, In p ([pt 0] ++ Sb) ->
                   exists t, - kb <= t <= 0 /\ p = pt t).
  { intros p [<- | Hin].
    - exists 0. split; [lia | reflexivity].
    - apply HSb in Hin. destruct Hin as (i & Hi & ->).
      eexists. split; [|reflexivity]. lia. }
  exists kb, kf, (([pt 0] ++ Sb) ++ Sf), v3.
  split; [exact Hkb|]. split; [exact Hkf|].
  split; [|split; [|split; [|split; [|split]]]].
  - rewrite E1, E2, E3, dfs_nil. reflexivity.
  - exact G123.
  - intros p. rewrite in_app_iff. split.
    + intros [Hin | Hin].
      * destruct (HS12 p Hin) as (t & Ht & ->). exists t. split; [lia | reflexivity].
      * apply HSf in Hin. destruct Hin as (i & Hi & ->).
        eexists. split; [|reflexivity]. lia.
    + intros (t & Ht & ->).
      destruct (Z_lt_le_dec t 0) as [Hneg | Hpos].
      * left. right. apply HSb. exists (- t - 1). split; [lia|]. f_equal. lia.
      * destruct (Z.eq_dec t 0) as [-> | Hne].
        -- left. left. reflexivity.
        -- right. apply HSf. exists (t - 1). split; [lia|]. f_equal. lia.
  - intros t Ht. destruct (Z_lt_le_dec t 0) as [Hneg | Hpos].
    + apply (fresh_before visited v1 _ t G1).
      specialize (Hfb (- t - 1) ltac:(lia)).
      replace (0 - 1 + -1 * (- t - 1)) with t in Hfb by lia. exact Hfb.
    + destruct (Z.eq_dec t 0) as [-> | Hne]; [exact Ef|].
      apply (fresh_before visited v2 _ t G12).
      specialize (Hff (t - 1) ltac:(lia)).
      replace (0 + 1 + 1 * (t - 1)) with t in Hff by lia. exact Hff.
  - apply (not_fresh_before visited v1 [pt 0] _ G1).
    + intros [E | []]. apply line_point_inj in E. lia.
    + replace (0 - 1 + -1 * kb) with (- kb - 1) in Hendb by lia. exact Hendb.
  - apply (not_fresh_before visited v2 _ _ G12).
    + intros Hin. destruct (HS12 _ Hin) as (t & Ht & E).
      apply line_point_inj in E. lia.
    + replace (0 + 1 + 1 * kf) with (kf + 1) in Hendf by lia. exact Hendf.
Qed.
End Search.

(** ** Minimum and maximum of the collected coordinates *)

Lemma fold_left_min_le (l : list Z) (x : Z) :
  fold_left Z.min l x <= x /\ forall y, In y l -> fold_left Z.min l x <= y.
Proof.
  revert x. induction l as [|a l IH]; intros x; simpl.
  - split; [lia | intros y []].
  - destruct (IH (Z.min x a)) as [H1 H2]. split; [lia|].
    intros y [<- | Hy]; [lia | apply H2, Hy].
Qed.

Lemma fold_left_min_In (l : list Z) (x : Z) : In (fold_left Z.min l x) (x :: l).
Proof.
  revert x. induction l as [|a l IH]; intros x; simpl.
  - left. reflexivity.
  - destruct (IH (Z.min x a)) as [E | Hin].
    + rewrite <- E. destruct (Z.min_spec x a) as [[_ ->] | [_ ->]]; auto.
    + right. right. exact Hin.
Qed.

Lemma fold_left_max_ge (l : list Z) (x : Z) :
  x <= fold_left Z.max l x /\ forall y, In y l -> y <= fold_left Z.max l x.
Proof.
  revert x. induction l as [|a l IH]; intros x; simpl.
  - split; [lia | intros y []].
  - destruct (IH (Z.max x a)) as [H1 H2]. split; [lia|].
    intros y [<- | Hy]; [lia | apply H2, Hy].
Qed.

Lemma fold_left_max_In (l : list Z) (x : Z) : In (fold_left Z.max l x) (x :: l).
Proof.
  revert x. induction l as [|a l IH]; intros x; simpl.
  - left. reflexivity.
  - destruct (IH (Z.max x a)) as [E | Hin].
    + rewrite <- E. destruct (Z.max_spec x a) as [[_ ->] | [_ ->]]; auto.
    + right. right. exact Hin.
Qed.

Lemma py_min_spec (l : list Z) (m : Z) :
  In m l -> (forall y, In y l -> m <= y) -> py_min l = Val m.
Proof.
  destruct l as [|x l]; [intros []|]. intros Hin Hle. simpl. f_equal.
  pose proof (fold_left_min_le l x) as [H1 H2].
  pose proof (fold_left_min_In l x) as H3.
  apply Z.le_antisymm.
  - destruct Hin as [<- | Hin]; [exact H1 | apply H2, Hin].
  - apply Hle, H3.
Qed.

Lemma py_max_spec (l : list Z) (m : Z) :
  In m l -> (forall y, In y l -> y <= m) -> py_max l = Val m.
Proof.
  destruct l as [|x l]; [intros []|]. intros Hin Hle. simpl. f_equal.
  pose proof (fold_left_max_ge l x) as [H1 H2].
  pose proof (fold_left_max_In l x) as H3.
  apply Z.le_antisymm.
  - apply Hle, H3.
  - destruct Hin as [<- | Hin]; [exact H1 | apply H2, Hin].
Qed.

Section Bounds.
Context (o : orient) (r0 c0 lo hi : Z) (S : list (Z * Z)).
Hypothesis Hlohi : lo <= hi.
Hypothesis HS : forall p, In p S <-> exists t, lo <= t <= hi /\ p = line_point o r0 c0 t.

Lemma line_point_mono t1 t2 :
  t1 <= t2 ->
  fst (line_point o r0 c0 t1) <= fst (line_point o r0 c0 t2) /\
  snd (line_point o r0 c0 t1) <= snd (line_point o r0 c0 t2).
Proof.
  intros Hle. unfold line_point.
  destruct (axis_cases o) as [-> | ->]; simpl; lia.
Qed.

Lemma bounds_of_line :
  py_min (map fst S) = Val (fst (line_point o r0 c0 lo)) /\
  py_min (map snd S) = Val (snd (line_point o r0 c0 lo)) /\
  py_max (map fst S) = Val (fst (line_point o r0 c0 hi)) /\
  py_max (map snd S) = Val (snd (line_point o r0 c0 hi)).
Proof.
  assert (Hlo : In (line_point o r0 c0 lo) S)
    by (apply HS; exists lo; split; [lia | reflexivity]).
  assert (Hhi : In (line_point o r0 c0 hi) S)
    by (apply HS; exists hi; split; [lia | reflexivity]).
  repeat split.
  - apply py_min_spec; [apply in_map, Hlo|].
    intros y Hy. apply in_map_iff in Hy. destruct Hy as (p & <- & Hp).
    apply HS in Hp. destruct Hp as (t & Ht & ->).
    apply line_point_mono. lia.
  - apply py_min_spec; [apply in_map, Hlo|].
    intros y Hy. apply in_map_iff in Hy. destruct Hy as (p & <- & Hp).
    apply HS in Hp. destruct Hp as (t & Ht & ->).
    apply line_point_mono. lia.
  - apply py_max_spec; [apply in_map, Hhi|].
    intros y Hy. apply in_map_iff in Hy. destruct Hy as (p & <- & Hp).
    apply HS in Hp. destruct Hp as (t & Ht & ->).
    apply line_point_mono. lia.
  - apply py_max_spec; [apply in_map, Hhi|].
    intros y Hy. apply in_map_iff in Hy. destruct Hy as (p & <- & Hp).
    apply HS in Hp. destruct Hp as (t & Ht & ->).
    apply line_point_mono. lia.
Qed.
End Bounds.

(** ** The invariant of the scan *)

Lemma cell_at_Some n b r c x :
  cell_at n b r c = Some x <->
  (0 <= r < n /\ 0 <= c < n) /\ py_getitem2 b r c = Some x.
Proof.
  unfold cell_at.
  destruct (Z.leb_spec 0 r), (Z.ltb_spec r n),
    (Z.leb_spec 0 c), (Z.ltb_spec c n); simpl;
    split; try discriminate; try (intros [[? ?] ?]; lia);
    try (intros ?; split; [lia | assumption]).
  intros [_ E]. exact E.
Qed.

Section Scan.
Context (n : Z) (b : list (list cell)) (Hb : square n b).

(** A cell inside the board that carries the marker of the search and is
    not fresh has been visited. *)
Lemma not_fresh_seen car_type visited r c :
  square n visited ->
  cell_at n b r c = Some car_type ->
  fresh n b car_type visited (r, c) = false ->
  py_getitem2 visited r c = Some true.
Proof.
  intros Hsq Hcell Hf. apply cell_at_Some in Hcell.
  destruct Hcell as [[Hr Hc] Hx].
  destruct (square_getitem2 n visited r c Hsq Hr Hc) as [[|] Hv];
    [exact Hv|].
  assert (fresh n b car_type visited (r, c) = true)
    by (apply fresh_true; repeat split; try assumption; lia).
  congruence.
Qed.

Lemma fresh_cell_at car_type visited r c :
  fresh n b car_type visited (r, c) = true ->
  cell_at n b r c = Some car_type.
Proof.
  intros Hf. apply fresh_true in Hf. destruct Hf as [Hv [_ Hx]].
  apply cell_at_Some. split; assumption.
Qed.

Section OneSearch.
Context (x : cell) (r0 c0 kb kf : Z) (visited visited' : list (list bool))
        (S : list (Z * Z)).
Local Abbreviation pt := (line_point (orient_of x) r0 c0).
Hypothesis Hx : x <> Empty.
Hypothesis Hkb : 0 <= kb.
Hypothesis Hkf : 0 <= kf.
Hypothesis Hsq : square n visited.
Hypothesis Hclosed : closed n b visited.
Hypothesis G : grows n visited visited' S.
Hypothesis HS : forall p, In p S <-> exists t, - kb <= t <= kf /\ p = pt t.
Hypothesis Hfresh :
  forall t, - kb <= t <= kf -> fresh n b x visited (pt t) = true.
Hypothesis Hback : fresh n b x visited (pt (- kb - 1)) = false.
Hypothesis Hforw : fresh n b x visited (pt (kf + 1)) = false.

Lemma line_point_step_fst t sigma :
  fst (pt t) + sigma * fst (axis (orient_of x)) = fst (pt (t + sigma)).
Proof. unfold line_point. simpl. ring. Qed.

Lemma line_point_step_snd t sigma :
  snd (pt t) + sigma * snd (axis (orient_of x)) = snd (pt (t + sigma)).
Proof. unfold line_point. simpl. ring. Qed.

Lemma run_cells t :
  - kb <= t <= kf -> cell_at n b (fst (pt t)) (snd (pt t)) = Some x.
Proof.
  intros Ht. apply (fresh_cell_at x visited).
  rewrite <- surjective_pairing. apply Hfresh, Ht.
Qed.

(** The cell next to an end of the run, if it carries the marker, has
    been visited before the search. *)
Lemma run_end_seen t :
  t = - kb - 1 \/ t = kf + 1 ->
  cell_at n b (fst (pt t)) (snd (pt t)) = Some x ->
  py_getitem2 visited (fst (pt t)) (snd (pt t)) = Some true.
Proof.
  intros Ht Hcell. apply (not_fresh_seen x); [exact Hsq | exact Hcell |].
  rewrite <- surjective_pairing. destruct Ht as [-> | ->]; assumption.
Qed.

(** The run cannot be extended: the cell next to an end does not carry
    the marker. *)
Lemma run_maximal t :
  t = - kb - 1 \/ t = kf + 1 ->
  cell_at n b (fst (pt t)) (snd (pt t)) <> Some x.
Proof.
  intros Ht Hcell. pose proof (run_end_seen t Ht Hcell) as Hseen.
  assert (exists sigma t', (sigma = 1 \/ sigma = -1) /\ - kb <= t' <= kf /\
                           t' = t + sigma) as (sigma & t' & Hsigma & Ht' & E).
  { destruct Ht as [-> | ->].
    - exists 1, (- kb). split; [auto|]. split; lia.
    - exists (-1), kf. split; [auto|]. split; lia. }
  pose proof (Hclosed _ _ x sigma Hcell Hx Hseen Hsigma) as Hnext.
  rewrite line_point_step_fst, line_point_step_snd, <- E in Hnext.
  specialize (Hnext (run_cells t' Ht')).
  pose proof (Hfresh t' Ht') as Hf.
  rewrite (surjective_pairing (pt t')) in Hf.
  apply fresh_true in Hf. destruct Hf as (_ & Hv & _). congruence.
Qed.

Lemma closed_after : closed n b visited'.
Proof.
  intros r c x1 sigma Hcell Hx1 Hseen Hsigma Hnext.
  pose proof Hcell as Hcell'. apply cell_at_Some in Hcell'.
  destruct Hcell' as [[Hr Hc] Hget].
  pose proof Hnext as Hnext'. apply cell_at_Some in Hnext'.
  destruct Hnext' as [[Hr' Hc'] _].
  destruct G as [_ Gget].
  destruct (mem S r c) eqn:Em.
  - apply mem_In, HS in Em. destruct Em as (t & Ht & E).
    pose proof (run_cells t Ht) as Hxt. rewrite <- E in Hxt. simpl in Hxt.
    assert (x1 = x) by congruence. subst x1.
    replace r with (fst (pt t)) in * by (rewrite <- E; reflexivity).
    replace c with (snd (pt t)) in * by (rewrite <- E; reflexivity).
    rewrite line_point_step_fst, line_point_step_snd in *.
    destruct (Z_le_dec (- kb) (t + sigma)) as [Hlo|Hlo];
      [destruct (Z_le_dec (t + sigma) kf) as [Hhi|Hhi]|].
    + rewrite Gget by lia.
      replace (mem S _ _) with true; [reflexivity|].
      symmetry. apply mem_In. rewrite <- surjective_pairing. apply HS.
      exists (t + sigma). split; [lia | reflexivity].
    + apply (seen_grows n visited visited' S); [exact G | lia | lia |].
      apply run_end_seen; [right; lia | exact Hnext].
    + apply (seen_grows n visited visited' S); [exact G | lia | lia |].
      apply run_end_seen; [left; lia | exact Hnext].
  - rewrite Gget, Em in Hseen by lia.
    apply (seen_grows n visited visited' S); [exact G | lia | lia |].
    exact (Hclosed r c x1 sigma Hcell Hx1 Hseen Hsigma Hnext).
Qed.

(** The car built from the cells of the search is a maximal run. *)
Lemma car_of_run :
  maximal_run n b
    (Car__init__ (fst (pt (- kb)), snd (pt (- kb)))
                 (fst (pt kf), snd (pt kf)) (orient_of x)).
Proof.
  pose proof run_cells as Hcells.
  pose proof (run_maximal (- kb - 1) (or_introl eq_refl)) as Hlo.
  pose proof (run_maximal (kf + 1) (or_intror eq_refl)) as Hhi.
  unfold maximal_run, Car__init__. simpl.
  unfold line_point in *.
  destruct x; [contradiction | |]; simpl in *.
  - split; [lia|]. split; [lia|]. split; [|split; [|split; [|reflexivity]]].
    + intros c Hc. specialize (Hcells (c - c0) ltac:(lia)).
      replace (r0 + (c - c0) * 0) with (r0 + - kb * 0) in Hcells by lia.
      replace (c0 + (c - c0) * 1) with c in Hcells by lia. exact Hcells.
    + replace (r0 + (- kb - 1) * 0) with (r0 + - kb * 0) in Hlo by lia.
      replace (c0 + (- kb - 1) * 1) with (c0 + - kb * 1 - 1) in Hlo by lia.
      exact Hlo.
    + replace (r0 + (kf + 1) * 0) with (r0 + - kb * 0) in Hhi by lia.
      replace (c0 + (kf + 1) * 1) with (c0 + kf * 1 + 1) in Hhi by lia.
      exact Hhi.
  - split; [lia|]. split; [lia|]. split; [|split; [|split; [|reflexivity]]].
    + intros r Hr. specialize (Hcells (r - r0) ltac:(lia)).
      replace (c0 + (r - r0) * 0) with (c0 + - kb * 0) in Hcells by lia.
      replace (r0 + (r - r0) * 1) with r in Hcells by lia. exact Hcells.
    + replace (c0 + (- kb - 1) * 0) with (c0 + - kb * 0) in Hlo by lia.
      replace (r0 + (- kb - 1) * 1) with (r0 + - kb * 1 - 1) in Hlo by lia.
      exact Hlo.
    + replace (c0 + (kf + 1) * 0) with (c0 + - kb * 0) in Hhi by lia.
      replace (r0 + (kf + 1) * 1) with (r0 + kf * 1 + 1) in Hhi by lia.
      exact Hhi.
Qed.
End OneSearch.
End Scan.

(** ** The scan, cell by cell *)

Lemma board_getitem_val g r c x :
  py_getitem2 (board g) r c = Some x -> board_getitem r c g = (Val x, g).
Proof.
  intros E. unfold board_getitem, bind, get_board, index_or_raise.
  rewrite E. reflexivity.
Qed.

(** The car built from a run covers the cells of the run. *)
Lemma covers_run o r0 c0 lo hi t :
  lo <= t <= hi ->
  covers (Car__init__ (fst (line_point o r0 c0 lo), snd (line_point o r0 c0 lo))
                      (fst (line_point o r0 c0 hi), snd (line_point o r0 c0 hi))
                      o)
         (fst (line_point o r0 c0 t)) (snd (line_point o r0 c0 t)) = true.
Proof.
  intros Ht. unfold covers, Car__init__. simpl.
  pose proof (line_point_mono o r0 c0 lo t ltac:(lia)) as [H1 H2].
  pose proof (line_point_mono o r0 c0 t hi ltac:(lia)) as [H3 H4].
  rewrite !andb_true_iff, !Z.leb_le. repeat split; assumption.
Qed.

(** One cell of the scan: the invariant is kept, nothing visited is
    forgotten, and the cell itself is settled. *)
Lemma scan_cell_inv n b (r c : Z) visited g :
  square n b -> 0 <= r < n -> 0 <= c < n ->
  scan_inv n b visited g ->
  exists visited' g',
    scan_cell r c visited g = (Val visited', g') /\
    scan_inv n b visited' g' /\
    settled n b visited' r c /\
    (forall r' c', 0 <= r' -> 0 <= c' ->
       py_getitem2 visited r' c' = Some true ->
       py_getitem2 visited' r' c' = Some true).
Proof.
  intros Hb Hr Hc (Hdim & Hboard & Hsq & Hclosed & Hcars & Hacc).
  destruct (square_getitem2 n b r c Hb Hr Hc) as [x Hx].
  destruct (square_getitem2 n visited r c Hsq Hr Hc) as [v Hv].
  assert (Eget : board_getitem r c g = (Val x, g))
    by (apply board_getitem_val; rewrite Hboard; exact Hx).
  assert (Hcell : cell_at n b r c = Some x)
    by (apply cell_at_Some; split; [split|]; assumption).
  unfold scan_cell. rewrite (bind_val _ _ _ _ _ Eget).
  destruct (cell_eqb x Empty) eqn:Ex.
  { exists visited, g. split; [reflexivity|].
    split; [exact (conj Hdim (conj Hboard (conj Hsq
                     (conj Hclosed (conj Hcars Hacc)))))|].
    split; [|auto]. left. apply cell_eqb_eq in Ex. subst x. exact Hcell. }
  rewrite Hv. erewrite bind_val by reflexivity.
  destruct v.
  { exists visited, g. split; [reflexivity|].
    split; [exact (conj Hdim (conj Hboard (conj Hsq
                     (conj Hclosed (conj Hcars Hacc)))))|].
    split; [|auto]. right. exact Hv. }
  assert (Hne : x <> Empty) by (intros ->; discriminate).
  assert (Ef : fresh n b x visited (r, c) = true)
    by (apply fresh_true; repeat split; try assumption; lia).
  rewrite <- (line_point_0 (orient_of x) r c) in Ef.
  destruct (dfs_from_fresh n b Hb x (orient_of x) r c visited Hsq Ef)
    as (kb & kf & S & visited' & Hkb & Hkf & Edfs & G & HS & Hfresh
        & Hback & Hforw).
  rewrite line_point_0 in Edfs.
  destruct (bounds_of_line (orient_of x) r c (- kb) kf S ltac:(lia) HS)
    as (Emin_r & Emin_c & Emax_r & Emax_c).
  rewrite (bind_val _ _ _ _ _ Eget).
  erewrite bind_val by reflexivity.
  erewrite bind_val by reflexivity.
  rewrite Hdim, Hboard. fold (orient_of x). rewrite Edfs.
  erewrite bind_val by reflexivity.
  assert (Hstart : In (r, c) S).
  { apply HS. exists 0. split; [lia|]. symmetry. apply line_point_0. }
  destruct S as [|p S']; [destruct Hstart|].
  rewrite Emin_r, Emin_c, Emax_r, Emax_c.
  do 6 (erewrite bind_val by reflexivity).
  eexists. eexists. split; [reflexivity|].
  pose proof G as [Hsq' Gget].
  split; [|split].
  - split; [exact Hdim|]. split; [exact Hboard|]. split; [exact Hsq'|].
    split; [|split].
    + exact (closed_after n b x r c kb kf visited visited' (p :: S')
               Hsq Hclosed G HS Hfresh Hback Hforw).
    + simpl cars. apply Forall_app. split; [exact Hcars|].
      constructor; [|constructor].
      exact (car_of_run n b x r c kb kf visited (p :: S') Hne Hkb Hkf Hsq
               Hclosed HS Hfresh Hback Hforw).
    + intros r' c' Hr' Hc' Hseen. simpl cars.
      rewrite Gget in Hseen by lia.
      destruct (mem (p :: S') r' c') eqn:Em.
      * apply mem_In, HS in Em. destruct Em as (t & Ht & E).
        eexists. split; [apply in_or_app; right; left; reflexivity|].
        replace r' with (fst (line_point (orient_of x) r c t))
          by (rewrite <- E; reflexivity).
        replace c' with (snd (line_point (orient_of x) r c t))
          by (rewrite <- E; reflexivity).
        apply covers_run. exact Ht.
      * destruct (Hacc r' c' Hr' Hc' Hseen) as (car & Hin & Hcov).
        exists car. split; [apply in_or_app; left; exact Hin | exact Hcov].
  - right. rewrite Gget by lia.
    replace (mem (p :: S') r c) with true; [reflexivity|].
    symmetry. apply mem_In. exact Hstart.
  - intros r' c' Hr' Hc' Hseen.
    exact (seen_grows n visited visited' (p :: S') r' c' G Hr' Hc' Hseen).
Qed.

(** A [for] loop establishes, item after item, an invariant of the items
    done so far, and does not raise when its body does not. *)
Lemma for_fold_inv {A St} (I : list A -> St -> Game -> Prop) (l : list A)
    (body : A -> St -> M St) :
  (forall pre x post s g, l = pre ++ x :: post -> I pre s g ->
     exists s' g', body x s g = (Val s', g') /\ I (pre ++ [x]) s' g') ->
  forall s g, I [] s g ->
    exists s' g', for_fold l body s g = (Val s', g') /\ I l s' g'.
Proof.
  intros Hbody.
  assert (Hgen : forall rest pre s g, l = pre ++ rest -> I pre s g ->
            exists s' g', for_fold rest body s g = (Val s', g') /\ I l s' g').
  { induction rest as [|x rest IH]; intros pre s g El HI.
    - rewrite app_nil_r in El. subst pre.
      exists s, g. split; [reflexivity | exact HI].
    - destruct (Hbody pre x rest s g El HI) as (s1 & g1 & E1 & HI1).
      destruct (IH (pre ++ [x]) s1 g1) as (s2 & g2 & E2 & HI2);
        [rewrite <- app_assoc; exact El | exact HI1 |].
      exists s2, g2. split; [|exact HI2].
      simpl. rewrite (bind_val _ _ _ _ _ E1). exact E2. }
  intros s g HI. exact (Hgen l [] s g eq_refl HI).
Qed.

Lemma closed_replicate n b (k : nat) :
  closed n b (replicate k (replicate k false)).
Proof.
  intros r c x sigma Hcell _ Hseen _ _. exfalso.
  apply cell_at_Some in Hcell. destruct Hcell as [[Hr Hc] _].
  unfold py_getitem2 in Hseen. rewrite py_getitem_nonneg in Hseen by lia.
  destruct (replicate k (replicate k false) !! Z.to_nat r) as [row|] eqn:Erow;
    [|discriminate].
  apply lookup_replicate in Erow. destruct Erow as [-> _].
  rewrite py_getitem_nonneg in Hseen by lia.
  apply lookup_replicate in Hseen. destruct Hseen as [Hseen _]. discriminate.
Qed.

Lemma accounted_replicate n (k : nat) cs :
  accounted n (replicate k (replicate k false)) cs.
Proof.
  intros r c Hr Hc Hseen. exfalso.
  unfold py_getitem2 in Hseen. rewrite py_getitem_nonneg in Hseen by lia.
  destruct (replicate k (replicate k false) !! Z.to_nat r) as [row|] eqn:Erow;
    [|discriminate].
  apply lookup_replicate in Erow. destruct Erow as [-> _].
  rewrite py_getitem_nonneg in Hseen by lia.
  apply lookup_replicate in Hseen. destruct Hseen as [Hseen _]. discriminate.
Qed.

Lemma square_replicate {A} (k : nat) (x : A) :
  square (Z.of_nat k) (replicate k (replicate k x)).
Proof.
  split.
  - rewrite length_replicate. reflexivity.
  - apply Forall_replicate. rewrite length_replicate. reflexivity.
Qed.

Lemma settled_later n b visited visited' r c :
  0 <= r -> 0 <= c ->
  (forall r' c', 0 <= r' -> 0 <= c' ->
     py_getitem2 visited r' c' = Some true ->
     py_getitem2 visited' r' c' = Some true) ->
  settled n b visited r c -> settled n b visited' r c.
Proof.
  intros Hr Hc Hmono [Hempty | Hseen]; [left; exact Hempty|].
  right. apply Hmono; assumption.
Qed.

(** One row of the scan. *)
Lemma scan_row_inv n b (r : Z) visited g :
  square n b -> 0 <= r < n ->
  scan_inv n b visited g ->
  exists visited' g',
    for_fold (py_range 0 n) (fun c visited => scan_cell r c visited) visited g
      = (Val visited', g') /\
    scan_inv n b visited' g' /\
    (forall c, 0 <= c < n -> settled n b visited' r c) /\
    (forall r' c', 0 <= r' -> 0 <= c' ->
       py_getitem2 visited r' c' = Some true ->
       py_getitem2 visited' r' c' = Some true).
Proof.
  intros Hb Hr HI.
  destruct (for_fold_inv
              (fun done v g1 =>
                 scan_inv n b v g1 /\
                 (forall c, In c done -> 0 <= c < n -> settled n b v r c) /\
                 (forall r' c', 0 <= r' -> 0 <= c' ->
                    py_getitem2 visited r' c' = Some true ->
                    py_getitem2 v r' c' = Some true))
              (py_range 0 n) (fun c visited => scan_cell r c visited))
    with (s := visited) (g := g) as (visited' & g' & E & HI' & Hdone & Hmono).
  - intros done c post v g1 El (HI1 & Hdone & Hmono).
    assert (Hc : 0 <= c < n).
    { apply In_py_range. rewrite El. apply in_or_app. right. left. reflexivity. }
    destruct (scan_cell_inv n b r c v g1 Hb Hr Hc HI1)
      as (v' & g2 & E & HI2 & Hset & Hmono').
    exists v', g2. split; [exact E|]. split; [exact HI2|]. split.
    + intros c' Hin Hc'. apply in_app_or in Hin. destruct Hin as [Hin | [<- | []]].
      * apply (settled_later n b v v'); [lia | lia | exact Hmono' |].
        apply Hdone; assumption.
      * exact Hset.
    + intros r' c' Hr' Hc' Hseen. apply Hmono'; [lia | lia |].
      apply Hmono; assumption.
  - split; [exact HI|]. split; [intros c []|]. auto.
  - exists visited', g'. split; [exact E|]. split; [exact HI'|].
    split; [|exact Hmono].
    intros c Hc. apply Hdone; [|exact Hc]. apply In_py_range. lia.
Qed.

(** ** C5: what the search groups *)

(** C5, as stated, fails.  On a board whose cells (0,0) and (1,0), one
    above the other, both carry "h", the scan returns two cars of one cell
    each: the two cells are neighbours with the same marker, yet no car
    covers both, so the car of (0,0) is not a maximal 4-connected group. *)
Lemma find_cars_splits_connected_cells :
  let b := [ [H; Empty; Empty; Empty; Empty];
             [H; Empty; Empty; Empty; Empty];
             [Empty; Empty; Empty; Empty; Empty];
             [Empty; Empty; Empty; Empty; Empty];
             [Empty; Empty; Empty; Empty; Empty] ] in
  let g := snd (find_cars (mkGame 5 b [])) in
  fst (find_cars (mkGame 5 b [])) = Val tt /\
  cars g = [ mkCar (0, 0) (0, 0) horizontal 1;
             mkCar (1, 0) (1, 0) horizontal 1 ] /\
  py_getitem2 b 0 0 = Some H /\
  py_getitem2 b 1 0 = Some H /\
  forallb (fun car => negb (covers car 0 0 && covers car 1 0)) (cars g) = true.
Proof. vm_compute. repeat split. Qed.

(** C5, amended. On every square board the scan returns normally, and
    its stack-based search explores from each cell only the two neighbours
    along the axis of the marker (left and right for "h", up and down for
    "v"), restricted to cells bearing the same marker: each emitted car is
    exactly a maximal straight run of equally marked cells in one row
    (horizontal) or one column (vertical), from [start_pos] to [end_pos],
    with the number of its cells as length, and every occupied cell lies
    in an emitted car. *)
Theorem find_cars_maximal_runs n g :
  board_dimension g = n ->
  square n (board g) ->
  exists g',
    find_cars g = (Val tt, g') /\
    board g' = board g /\
    Forall (maximal_run n (board g)) (cars g') /\
    forall r c x,
      cell_at n (board g) r c = Some x -> x <> Empty ->
      exists car, In car (cars g') /\ covers car r c = true.
Proof.
  intros Hdim Hb. subst n. set (n := board_dimension g) in *.
  assert (Hn : n = Z.of_nat (Z.to_nat n)) by (destruct Hb as [<- _]; lia).
  set (g0 := mkGame n (board g) []).
  set (visited0 := replicate (Z.to_nat n) (replicate (Z.to_nat n) false)).
  assert (HI0 : scan_inv n (board g) visited0 g0).
  { split; [reflexivity|]. split; [reflexivity|].
    split; [|split; [|split]].
    - unfold visited0. rewrite Hn at 1. apply square_replicate.
    - apply closed_replicate.
    - constructor.
    - apply accounted_replicate. }
  destruct (for_fold_inv
              (fun done v g1 =>
                 scan_inv n (board g) v g1 /\
                 forall r c, In r done -> 0 <= r < n -> 0 <= c < n ->
                   settled n (board g) v r c)
              (py_range 0 n)
              (fun r visited =>
                 do dim_c <- get_board_dimension;
                 for_fold (py_range 0 dim_c)
                   (fun c visited => scan_cell r c visited) visited))
    with (s := visited0) (g := g0) as (visited' & g' & E & HI' & Hdone).
  - intros done r post v g1 El (HI1 & Hdone).
    assert (Hr : 0 <= r < n).
    { apply In_py_range. rewrite El. apply in_or_app. right. left. reflexivity. }
    pose proof HI1 as (Hdim1 & _).
    erewrite bind_val by reflexivity. rewrite Hdim1.
    destruct (scan_row_inv n (board g) r v g1 Hb Hr HI1)
      as (v' & g2 & E & HI2 & Hrow & Hmono).
    exists v', g2. split; [exact E|]. split; [exact HI2|].
    intros r' c Hin Hr' Hc. apply in_app_or in Hin.
    destruct Hin as [Hin | [<- | []]].
    + apply (settled_later n (board g) v v'); [lia | lia | exact Hmono |].
      apply Hdone; assumption.
    + apply Hrow. exact Hc.
  - split; [exact HI0 | intros r c []].
  - exists g'. destruct HI' as (_ & Hboard' & _ & _ & Hcars' & Hacc').
    split; [|split; [exact Hboard' | split; [exact Hcars'|]]].
    + unfold find_cars.
      erewrite bind_val by reflexivity.
      erewrite bind_val by reflexivity.
      erewrite bind_val by reflexivity.
      simpl board_dimension. fold n. fold visited0. fold g0.
      erewrite bind_val by exact E. reflexivity.
    + intros r c x Hcell Hx.
      pose proof Hcell as Hcell'. apply cell_at_Some in Hcell'.
      destruct Hcell' as [[Hr Hc] _].
      destruct (Hdone r c) as [Hempty | Hseen]; try assumption.
      * apply In_py_range. lia.
      * congruence.
      * apply Hacc'; assumption.
Qed.

Lemma find_cars_maximal_runs_witness :
  exists g',
    find_cars (Game__init__ 5) = (Val tt, g') /\
    board g' = board (Game__init__ 5) /\
    Forall (maximal_run 5 (board (Game__init__ 5))) (cars g') /\
    forall r c x,
      cell_at 5 (board (Game__init__ 5)) r c = Some x -> x <> Empty ->
      exists car, In car (cars g') /\ covers car r c = true.
Proof.
  apply (find_cars_maximal_runs 5 (Game__init__ 5)).
  - reflexivity.
  - split; [reflexivity | repeat constructor].
Defined.

(** * Further properties of the move helpers *)

(** Two square boards with the same cells are the same board. *)
Lemma square_ext {A} n (m m' : list (list A)) :
  square n m -> square n m' ->
  (forall r c, 0 <= r < n -> 0 <= c < n ->
     py_getitem2 m r c = py_getitem2 m' r c) ->
  m = m'.
Proof.
  intros Hsq Hsq' Hget. pose proof Hsq as [Hlen Hrows].
  pose proof Hsq' as [Hlen' Hrows'].
  apply list_eq. intros k.
  destruct (Z_lt_le_dec (Z.of_nat k) n) as [Hk | Hk].
  - destruct (square_row n m k Hsq Hk) as (row & Hrow & Hl).
    destruct (square_row n m' k Hsq' Hk) as (row' & Hrow' & Hl').
    rewrite Hrow, Hrow'. f_equal. apply list_eq. intros i.
    destruct (Z_lt_le_dec (Z.of_nat i) n) as [Hi | Hi].
    + specialize (Hget (Z.of_nat k) (Z.of_nat i) ltac:(lia) ltac:(lia)).
      unfold py_getitem2 in Hget.
      rewrite !(py_getitem_nonneg _ (Z.of_nat k)), !Nat2Z.id in Hget by lia.
      rewrite Hrow, Hrow' in Hget.
      rewrite !py_getitem_nonneg, !Nat2Z.id in Hget by lia. exact Hget.
    + rewrite !lookup_ge_None_2; [reflexivity | |]; apply Nat2Z.inj_le; lia.
  - rewrite !lookup_ge_None_2; [reflexivity | |]; apply Nat2Z.inj_le; lia.
Qed.

(** The rows written by a loop over [range(s, e + 1)] whose row indices
    stay inside the board. *)
Lemma existsb_rows n (rho : Z -> Z) (delta s e r : Z) :
  (forall i, s <= i <= e -> rho i mod n = i + delta) ->
  existsb (fun i => r =? rho i mod n) (py_range s (e + 1))
  = (s + delta <=? r) && (r <=? e + delta).
Proof.
  intros Hrho. apply eq_true_iff_eq.
  rewrite existsb_py_range, andb_true_iff, !Z.leb_le. split.
  - intros (i & Hi & E). apply Z.eqb_eq in E. rewrite Hrho in E by lia. lia.
  - intros [H1 H2]. exists (r - delta). split; [lia|].
    rewrite Hrho by lia. apply Z.eqb_eq. lia.
Qed.

Lemma existsb_cols n (s e c : Z) :
  0 <= s -> e < n ->
  existsb (fun j => c =? j mod n) (py_range s (e + 1))
  = (s <=? c) && (c <=? e).
Proof.
  intros Hs He.
  rewrite (existsb_rows n (fun j => j) 0 s e c).
  - rewrite !Z.add_0_r. reflexivity.
  - intros i Hi. rewrite Z.mod_small by lia. lia.
Qed.

(** ** The cells a move writes, when no index leaves the board *)

Section Shifts.
Context (n : Z) (g : Game) (car_num : Z) (car : Car).
Hypothesis Hcar : py_getitem (cars g) (car_num - 1) = Some car.
Hypothesis Hsq : square n (board g).

Lemma _move_up_vertical_cells s j e :
  orientation car = vertical ->
  start_pos car = (s, j) -> fst (end_pos car) = e ->
  1 <= s -> e < n -> 0 <= j < n ->
  exists b',
    _move_up car_num g = (Val tt, mkGame (board_dimension g) b' (cars g)) /\
    square n b' /\
    forall r c, 0 <= r -> 0 <= c ->
      py_getitem2 b' r c =
      if (c =? j) && ((s - 1 <=? r) && (r <=? e - 1)) then Some V
      else if (c =? j) && ((s <=? r) && (r <=? e)) then Some Empty
      else py_getitem2 (board g) r c.
Proof.
  intros Ho Hs He Hs1 Hen Hj.
  destruct (_move_up_vertical n g car_num car Hcar Hsq s j e Ho Hs He)
    as (b' & E & Hsq' & G); [lia | lia | lia |].
  exists b'. split; [exact E|]. split; [exact Hsq'|].
  intros r c Hr Hc. rewrite (G r c Hr Hc).
  rewrite (existsb_rows n (fun i => i - 1) (-1) s e r)
    by (intros i Hi; rewrite Z.mod_small by lia; lia).
  rewrite (existsb_rows n (fun i => i) 0 s e r)
    by (intros i Hi; rewrite Z.mod_small by lia; lia).
  rewrite !Z.add_0_r. reflexivity.
Qed.

Lemma _move_down_vertical_cells s j e :
  orientation car = vertical ->
  start_pos car = (s, j) -> fst (end_pos car) = e ->
  0 <= s -> e + 1 < n -> 0 <= j < n ->
  exists b',
    _move_down car_num g = (Val tt, mkGame (board_dimension g) b' (cars g)) /\
    square n b' /\
    forall r c, 0 <= r -> 0 <= c ->
      py_getitem2 b' r c =
      if (c =? j) && ((s + 1 <=? r) && (r <=? e + 1)) then Some V
      else if (c =? j) && ((s <=? r) && (r <=? e)) then Some Empty
      else py_getitem2 (board g) r c.
Proof.
  intros Ho Hs He Hs0 Hen Hj.
  destruct (_move_down_vertical n g car_num car Hcar Hsq s j e Ho Hs He)
    as (b' & E & Hsq' & G); [lia | lia | lia |].
  exists b'. split; [exact E|]. split; [exact Hsq'|].
  intros r c Hr Hc. rewrite (G r c Hr Hc).
  rewrite (existsb_rows n (fun i => i + 1) 1 s e r)
    by (intros i Hi; rewrite Z.mod_small by lia; lia).
  rewrite (existsb_rows n (fun i => i) 0 s e r)
    by (intros i Hi; rewrite Z.mod_small by lia; lia).
  rewrite !Z.add_0_r. reflexivity.
Qed.

Lemma _move_up_horizontal_cells i sj ej :
  orientation car = horizontal ->
  start_pos car = (i, sj) -> snd (end_pos car) = ej ->
  1 <= i < n -> 0 <= sj -> ej < n ->
  exists b',
    _move_up car_num g = (Val tt, mkGame (board_dimension g) b' (cars g)) /\
    square n b' /\
    forall r c, 0 <= r -> 0 <= c ->
      py_getitem2 b' r c =
      if (sj <=? c) && (c <=? ej) then
        if r =? i - 1 then Some H
        else if r =? i then Some Empty
        else py_getitem2 (board g) r c
      else py_getitem2 (board g) r c.
Proof.
  intros Ho Hs He Hi Hsj Hej.
  destruct (_move_up_horizontal n g car_num car Hcar Hsq i sj ej Ho Hs He)
    as (b' & E & Hsq' & G); [lia | lia | lia |].
  exists b'. split; [exact E|]. split; [exact Hsq'|].
  intros r c Hr Hc. rewrite (G r c Hr Hc).
  rewrite existsb_cols by lia.
  rewrite (Z.mod_small (i - 1)), (Z.mod_small i) by lia. reflexivity.
Qed.

Lemma _move_down_horizontal_cells i sj ej :
  orientation car = horizontal ->
  start_pos car = (i, sj) -> snd (end_pos car) = ej ->
  0 <= i -> i + 1 < n -> 0 <= sj -> ej < n ->
  exists b',
    _move_down car_num g = (Val tt, mkGame (board_dimension g) b' (cars g)) /\
    square n b' /\
    forall r c, 0 <= r -> 0 <= c ->
      py_getitem2 b' r c =
      if (sj <=? c) && (c <=? ej) then
        if r =? i + 1 then Some H
        else if r =? i then Some Empty
        else py_getitem2 (board g) r c
      else py_getitem2 (board g) r c.
Proof.
  intros Ho Hs He Hi Hi1 Hsj Hej.
  destruct (_move_down_horizontal n g car_num car Hcar Hsq i sj ej Ho Hs He)
    as (b' & E & Hsq' & G); [lia | lia | lia | lia |].
  exists b'. split; [exact E|]. split; [exact Hsq'|].
  intros r c Hr Hc. rewrite (G r c Hr Hc).
  rewrite existsb_cols by lia.
  rewrite (Z.mod_small (i + 1)), (Z.mod_small i) by lia. reflexivity.
Qed.
End Shifts.

Ltac cases_Z :=
  repeat match goal with
  | |- context [Z.leb ?a ?b] => destruct (Z.leb_spec a b)
  | |- context [Z.eqb ?a ?b] => destruct (Z.eqb_spec a b)
  end; simpl; try reflexivity; try lia.

(** ** The car is shifted by one cell *)

(** X1. A vertical car in rows [s..e] of column [j], with a row above it
    ([1 <= s]), is moved up as a whole: afterwards rows [s-1..e-1] of the
    column carry "v", row [e] is empty, and no other cell of the board has
    changed.  What the cells held before plays no part. *)
Theorem _move_up_vertical_shift n g car_num car s j e :
  py_getitem (cars g) (car_num - 1) = Some car ->
  square n (board g) ->
  orientation car = vertical ->
  start_pos car = (s, j) -> fst (end_pos car) = e ->
  1 <= s <= e -> e < n -> 0 <= j < n ->
  exists g',
    _move_up car_num g = (Val tt, g') /\
    square n (board g') /\
    (forall r, s - 1 <= r <= e - 1 -> py_getitem2 (board g') r j = Some V) /\
    py_getitem2 (board g') e j = Some Empty /\
    (forall r c, 0 <= r -> 0 <= c -> c <> j \/ r < s - 1 \/ e < r ->
       py_getitem2 (board g') r c = py_getitem2 (board g) r c).
Proof.
  intros Hcar Hsq Ho Hs He Hse Hen Hj.
  destruct (_move_up_vertical_cells n g car_num car Hcar Hsq s j e Ho Hs He)
    as (b' & E & Hsq' & G); [lia | lia | lia |].
  eexists. split; [exact E|]. simpl board. split; [exact Hsq'|].
  split; [|split].
  - intros r Hr. rewrite G by lia. cases_Z.
  - rewrite G by lia. cases_Z.
  - intros r c Hr Hc Hout. rewrite G by lia. cases_Z.
Qed.

Lemma _move_up_vertical_shift_witness :
  let g := snd (find_cars (Game__init__ 5)) in
  exists g',
    _move_up 1 g = (Val tt, g') /\
    square 5 (board g') /\
    (forall r, 1 - 1 <= r <= 2 - 1 -> py_getitem2 (board g') r 2 = Some V) /\
    py_getitem2 (board g') 2 2 = Some Empty /\
    (forall r c, 0 <= r -> 0 <= c -> c <> 2 \/ r < 1 - 1 \/ 2 < r ->
       py_getitem2 (board g') r c = py_getitem2 (board g) r c).
Proof.
  apply (_move_up_vertical_shift 5 _ 1 (mkCar (1, 2) (2, 2) vertical 2) 1 2 2).
  - reflexivity.
  - split; [reflexivity | repeat constructor].
  - reflexivity.
  - reflexivity.
  - reflexivity.
  - lia.
  - lia.
  - lia.
Defined.

(** X2. The same car with a row below it ([e + 1 < n]), moved down:
    afterwards rows [s+1..e+1] of the column carry "v", row [s] is empty,
    and no other cell has changed. *)
Theorem _move_down_vertical_shift n g car_num car s j e :
  py_getitem (cars g) (car_num - 1) = Some car ->
  square n (board g) ->
  orientation car = vertical ->
  start_pos car = (s, j) -> fst (end_pos car) = e ->
  0 <= s <= e -> e + 1 < n -> 0 <= j < n ->
  exists g',
    _move_down car_num g = (Val tt, g') /\
    square n (board g') /\
    (forall r, s + 1 <= r <= e + 1 -> py_getitem2 (board g') r j = Some V) /\
    py_getitem2 (board g') s j = Some Empty /\
    (forall r c, 0 <= r -> 0 <= c -> c <> j \/ r < s \/ e + 1 < r ->
       py_getitem2 (board g') r c = py_getitem2 (board g) r c).
Proof.
  intros Hcar Hsq Ho Hs He Hse Hen Hj.
  destruct (_move_down_vertical_cells n g car_num car Hcar Hsq s j e Ho Hs He)
    as (b' & E & Hsq' & G); [lia | lia | lia |].
  eexists. split; [exact E|]. simpl board. split; [exact Hsq'|].
  split; [|split].
  - intros r Hr. rewrite G by lia. cases_Z.
  - rewrite G by lia. cases_Z.
  - intros r c Hr Hc Hout. rewrite G by lia. cases_Z.
Qed.

Lemma _move_down_vertical_shift_witness :
  let g := snd (find_cars (Game__init__ 5)) in
  exists g',
    _move_down 1 g = (Val tt, g') /\
    square 5 (board g') /\
    (forall r, 1 + 1 <= r <= 2 + 1 -> py_getitem2 (board g') r 2 = Some V) /\
    py_getitem2 (board g') 1 2 = Some Empty /\
    (forall r c, 0 <= r -> 0 <= c -> c <> 2 \/ r < 1 \/ 2 + 1 < r ->
       py_getitem2 (board g') r c = py_getitem2 (board g) r c).
Proof.
  apply (_move_down_vertical_shift 5 _ 1 (mkCar (1, 2) (2, 2) vertical 2) 1 2 2).
  - reflexivity.
  - split; [reflexivity | repeat constructor].
  - reflexivity.
  - reflexivity.
  - reflexivity.
  - lia.
  - lia.
  - lia.
Defined.

(** X3. A horizontal car in row [i], columns [sj..ej], is moved to the
    row above by [_move_up] (when [1 <= i]) and to the row below by
    [_move_down] (when [i + 1 < n]): the cells of the target row in these
    columns carry "h", the cells of row [i] are empty, and no other cell has
    changed. *)
Theorem horizontal_shift n g car_num car i sj ej :
  py_getitem (cars g) (car_num - 1) = Some car ->
  square n (board g) ->
  orientation car = horizontal ->
  start_pos car = (i, sj) -> snd (end_pos car) = ej ->
  0 <= i < n -> 0 <= sj -> ej < n ->
  (1 <= i ->
   exists g',
     _move_up car_num g = (Val tt, g') /\
     square n (board g') /\
     forall r c, 0 <= r -> 0 <= c ->
       py_getitem2 (board g') r c =
       if (sj <=? c) && (c <=? ej) && (r =? i - 1) then Some H
       else if (sj <=? c) && (c <=? ej) && (r =? i) then Some Empty
       else py_getitem2 (board g) r c) /\
  (i + 1 < n ->
   exists g',
     _move_down car_num g = (Val tt, g') /\
     square n (board g') /\
     forall r c, 0 <= r -> 0 <= c ->
       py_getitem2 (board g') r c =
       if (sj <=? c) && (c <=? ej) && (r =? i + 1) then Some H
       else if (sj <=? c) && (c <=? ej) && (r =? i) then Some Empty
       else py_getitem2 (board g) r c).
Proof.
  intros Hcar Hsq Ho Hs He Hi Hsj Hej. split; intros Hi1.
  - destruct (_move_up_horizontal_cells n g car_num car Hcar Hsq i sj ej
                Ho Hs He) as (b' & E & Hsq' & G); [lia | lia | lia |].
    eexists. split; [exact E|]. simpl board. split; [exact Hsq'|].
    intros r c Hr Hc. rewrite G by lia. cases_Z.
  - destruct (_move_down_horizontal_cells n g car_num car Hcar Hsq i sj ej
                Ho Hs He) as (b' & E & Hsq' & G); [lia | lia | lia | lia |].
    eexists. split; [exact E|]. simpl board. split; [exact Hsq'|].
    intros r c Hr Hc. rewrite G by lia. cases_Z.
Qed.

Lemma horizontal_shift_witness :
  let g := snd (find_cars (mkGame 5 ESTADO_OBJETIVO [])) in
  (1 <= 2 ->
   exists g',
     _move_up 1 g = (Val tt, g') /\
     square 5 (board g') /\
     forall r c, 0 <= r -> 0 <= c ->
       py_getitem2 (board g') r c =
       if (3 <=? c) && (c <=? 4) && (r =? 2 - 1) then Some H
       else if (3 <=? c) && (c <=? 4) && (r =? 2) then Some Empty
       else py_getitem2 (board g) r c) /\
  (2 + 1 < 5 ->
   exists g',
     _move_down 1 g = (Val tt, g') /\
     square 5 (board g') /\
     forall r c, 0 <= r -> 0 <= c ->
       py_getitem2 (board g') r c =
       if (3 <=? c) && (c <=? 4) && (r =? 2 + 1) then Some H
       else if (3 <=? c) && (c <=? 4) && (r =? 2) then Some Empty
       else py_getitem2 (board g) r c).
Proof.
  apply (horizontal_shift 5 _ 1 (mkCar (2, 3) (2, 4) horizontal 2) 2 3 4).
  - reflexivity.
  - split; [reflexivity | repeat constructor].
  - reflexivity.
  - reflexivity.
  - reflexivity.
  - lia.
  - lia.
  - lia.
Defined.

(** ** Moves at the edge of the board *)

Lemma py_range_cons (a b : Z) : a < b -> py_range a b = a :: py_range (a + 1) b.
Proof.
  intros Hab. unfold py_range. rewrite seqZ_cons by lia.
  f_equal. f_equal; lia.
Qed.

Lemma py_range_snoc (a b : Z) : a <= b -> py_range a (b + 1) = py_range a b ++ [b].
Proof.
  intros Hab. unfold py_range.
  replace (b + 1 - a) with ((b - a) + 1) by lia.
  rewrite seqZ_app by lia. f_equal.
  replace (a + (b - a)) with b by lia.
  rewrite seqZ_cons by lia. rewrite seqZ_nil by lia. reflexivity.
Qed.

Lemma bind_raise {A B} (m : M A) (k : A -> M B) g e g' :
  m g = (Raise e, g') -> bind m k g = (Raise e, g').
Proof. intros E. unfold bind. rewrite E. reflexivity. Qed.

Lemma for__app {A} (l1 l2 : list A) (body : A -> M unit) g :
  for_ (l1 ++ l2) body g = (run for_ l1 body; for_ l2 body) g.
Proof.
  revert g. induction l1 as [|x l1 IH]; intros g; simpl.
  - reflexivity.
  - unfold bind. destruct (body x g) as [[[]|e] g1]; [|reflexivity].
    rewrite IH. reflexivity.
Qed.

(** Writing below the last row raises [IndexError] and changes nothing. *)
Lemma board_setitem_below n g c x :
  square n (board g) ->
  board_setitem n c x g = (Raise IndexError, g).
Proof.
  intros [Hlen _]. unfold board_setitem, bind, get_board, py_setitem2.
  rewrite py_getitem_out by lia. reflexivity.
Qed.

(** X4. A vertical car whose top cell is in row 0, moved up: the write
    meant for the row above row 0 uses index -1, which denotes the last row
    of the board.  Afterwards rows [0..e-1] and the last row of the column
    carry "v", row [e] is empty unless it is the last row, and no other cell
    has changed. *)
Theorem _move_up_vertical_wraps n g car_num car j e :
  py_getitem (cars g) (car_num - 1) = Some car ->
  square n (board g) ->
  orientation car = vertical ->
  start_pos car = (0, j) -> fst (end_pos car) = e ->
  0 <= e < n -> 0 <= j < n ->
  exists g',
    _move_up car_num g = (Val tt, g') /\
    py_getitem2 (board g') (n - 1) j = Some V /\
    (forall r, 0 <= r <= e - 1 -> py_getitem2 (board g') r j = Some V) /\
    (e < n - 1 -> py_getitem2 (board g') e j = Some Empty) /\
    (forall r c, 0 <= r -> 0 <= c -> c <> j \/ (e < r /\ r <> n - 1) ->
       py_getitem2 (board g') r c = py_getitem2 (board g) r c).
Proof.
  intros Hcar Hsq Ho Hs He Hen Hj.
  destruct (_move_up_vertical n g car_num car Hcar Hsq 0 j e Ho Hs He)
    as (b' & E & Hsq' & G); [lia | lia | lia |].
  assert (G' : forall r c, 0 <= r -> 0 <= c ->
            py_getitem2 b' r c =
            if (c =? j) && ((r =? n - 1) || ((0 <=? r) && (r <=? e - 1)))
            then Some V
            else if (c =? j) && ((0 <=? r) && (r <=? e)) then Some Empty
            else py_getitem2 (board g) r c).
  { intros r c Hr Hc. rewrite (G r c Hr Hc).
    rewrite (existsb_rows n (fun i => i) 0 0 e r)
      by (intros i Hi; rewrite Z.mod_small by lia; lia).
    rewrite py_range_cons by lia. simpl existsb.
    rewrite (existsb_rows n (fun i => i - 1) (-1) (0 + 1) e r)
      by (intros i Hi; rewrite Z.mod_small by lia; lia).
    replace ((0 - 1) mod n) with (n - 1)
      by (apply Z.mod_unique with (q := -1); lia).
    rewrite !Z.add_0_r. reflexivity. }
  eexists. split; [exact E|]. simpl board. split; [|split; [|split]].
  - rewrite G' by lia. cases_Z.
  - intros r Hr. rewrite G' by lia. cases_Z.
  - intros He1. rewrite G' by lia. cases_Z.
  - intros r c Hr Hc Hout. rewrite G' by lia. cases_Z.
Qed.

Lemma _move_up_vertical_wraps_witness :
  let g := snd (find_cars (snd (_move_up 1 (snd (find_cars (Game__init__ 5)))))) in
  exists g',
    _move_up 1 g = (Val tt, g') /\
    py_getitem2 (board g') (5 - 1) 2 = Some V /\
    (forall r, 0 <= r <= 1 - 1 -> py_getitem2 (board g') r 2 = Some V) /\
    (1 < 5 - 1 -> py_getitem2 (board g') 1 2 = Some Empty) /\
    (forall r c, 0 <= r -> 0 <= c -> c <> 2 \/ (1 < r /\ r <> 5 - 1) ->
       py_getitem2 (board g') r c = py_getitem2 (board g) r c).
Proof.
  apply (_move_up_vertical_wraps 5 _ 1 (mkCar (0, 2) (1, 2) vertical 2) 2 1).
  - reflexivity.
  - split; [reflexivity | repeat constructor].
  - reflexivity.
  - reflexivity.
  - reflexivity.
  - lia.
  - lia.
Defined.

(** X5. A horizontal car in row 0, moved up, lands in the last row of the
    board: index -1 again.  The cells of the last row in the car's columns
    carry "h", those of row 0 are empty (when the board has more than one
    row), and no other cell has changed. *)
Theorem _move_up_horizontal_wraps n g car_num car sj ej :
  py_getitem (cars g) (car_num - 1) = Some car ->
  square n (board g) ->
  orientation car = horizontal ->
  start_pos car = (0, sj) -> snd (end_pos car) = ej ->
  0 < n -> 0 <= sj -> ej < n ->
  exists g',
    _move_up car_num g = (Val tt, g') /\
    forall r c, 0 <= r -> 0 <= c ->
      py_getitem2 (board g') r c =
      if (sj <=? c) && (c <=? ej) && (r =? n - 1) then Some H
      else if (sj <=? c) && (c <=? ej) && (r =? 0) then Some Empty
      else py_getitem2 (board g) r c.
Proof.
  intros Hcar Hsq Ho Hs He Hn Hsj Hej.
  destruct (_move_up_horizontal n g car_num car Hcar Hsq 0 sj ej Ho Hs He)
    as (b' & E & Hsq' & G); [lia | lia | lia |].
  eexists. split; [exact E|]. simpl board.
  intros r c Hr Hc. rewrite (G r c Hr Hc).
  rewrite existsb_cols by lia.
  replace ((0 - 1) mod n) with (n - 1)
    by (apply Z.mod_unique with (q := -1); lia).
  rewrite (Z.mod_small 0) by lia. cases_Z.
Qed.

Lemma _move_up_horizontal_wraps_witness :
  let b := [ [Empty; H; H]; [Empty; Empty; Empty]; [Empty; Empty; Empty] ] in
  let g := snd (find_cars (mkGame 3 b [])) in
  exists g',
    _move_up 1 g = (Val tt, g') /\
    forall r c, 0 <= r -> 0 <= c ->
      py_getitem2 (board g') r c =
      if (1 <=? c) && (c <=? 2) && (r =? 3 - 1) then Some H
      else if (1 <=? c) && (c <=? 2) && (r =? 0) then Some Empty
      else py_getitem2 (board g) r c.
Proof.
  apply (_move_up_horizontal_wraps 3 _ 1 (mkCar (0, 1) (0, 2) horizontal 2) 1 2).
  - reflexivity.
  - split; [reflexivity | repeat constructor].
  - reflexivity.
  - reflexivity.
  - reflexivity.
  - lia.
  - lia.
  - lia.
Defined.

(** X6. A vertical car whose bottom cell is in the last row, moved down:
    the helper raises [IndexError], but only after it has rewritten the
    column.  The object is left with the car one cell shorter: row [s] is
    empty, rows [s+1..n-1] carry "v", no other cell has changed and the
    cars are as before. *)
Theorem _move_down_vertical_at_bottom n g car_num car s j :
  py_getitem (cars g) (car_num - 1) = Some car ->
  square n (board g) ->
  orientation car = vertical ->
  start_pos car = (s, j) -> fst (end_pos car) = n - 1 ->
  0 <= s <= n - 1 -> 0 <= j < n ->
  exists g',
    _move_down car_num g = (Raise IndexError, g') /\
    cars g' = cars g /\
    py_getitem2 (board g') s j = Some Empty /\
    (forall r, s + 1 <= r <= n - 1 -> py_getitem2 (board g') r j = Some V) /\
    (forall r c, 0 <= r -> 0 <= c -> c <> j \/ r < s ->
       py_getitem2 (board g') r c = py_getitem2 (board g) r c).
Proof.
  intros Hcar Hsq Ho Hs He Hsn Hj.
  destruct (for_setitem_column n (fun i => i) j Empty (py_range s (n - 1 + 1))
              g Hsq)
    as (b1 & E1 & Hsq1 & G1); [lia | intros i Hi; apply In_py_range in Hi; lia |].
  destruct (for_setitem_column n (fun i => i + 1) j V (py_range s (n - 1))
              (mkGame (board_dimension g) b1 (cars g)) Hsq1)
    as (b2 & E2 & Hsq2 & G2); [lia | intros i Hi; apply In_py_range in Hi; lia |].
  simpl in E2.
  exists (mkGame (board_dimension g) b2 (cars g)).
  split; [|split; [reflexivity|]].
  - unfold _move_down.
    erewrite bind_val by reflexivity.
    rewrite Hcar. erewrite bind_val by reflexivity.
    rewrite Ho. simpl orient_eqb. simpl cell_eqb. cbv iota.
    erewrite bind_val by reflexivity.
    rewrite Hs, He.
    erewrite bind_val by exact E1.
    rewrite (py_range_snoc s (n - 1)) by lia. rewrite for__app.
    erewrite bind_val by exact E2.
    simpl for_. apply bind_raise.
    replace (n - 1 + 1) with n by lia.
    apply board_setitem_below. exact Hsq2.
  - simpl board.
    assert (G : forall r c, 0 <= r -> 0 <= c ->
              py_getitem2 b2 r c =
              if (c =? j) && ((s + 1 <=? r) && (r <=? n - 1)) then Some V
              else if (c =? j) && ((s <=? r) && (r <=? n - 1)) then Some Empty
              else py_getitem2 (board g) r c).
    { intros r c Hr Hc. rewrite (G2 r c Hr Hc). simpl board.
      rewrite (G1 r c Hr Hc). rewrite (Z.mod_small j) by lia.
      replace (py_range s (n - 1)) with (py_range s (n - 2 + 1))
        by (f_equal; lia).
      rewrite (existsb_rows n (fun i => i + 1) 1 s (n - 2) r)
        by (intros i Hi; rewrite Z.mod_small by lia; lia).
      rewrite (existsb_rows n (fun i => i) 0 s (n - 1) r)
        by (intros i Hi; rewrite Z.mod_small by lia; lia).
      replace (n - 2 + 1) with (n - 1) by lia.
      rewrite !Z.add_0_r. reflexivity. }
    split; [|split].
    + rewrite G by lia. cases_Z.
    + intros r Hr. rewrite G by lia. cases_Z.
    + intros r c Hr Hc Hout. rewrite G by lia. cases_Z.
Qed.

Lemma _move_down_vertical_at_bottom_witness :
  let b := [ [Empty; Empty; Empty]; [Empty; V; Empty]; [Empty; V; Empty] ] in
  let g := snd (find_cars (mkGame 3 b [])) in
  exists g',
    _move_down 1 g = (Raise IndexError, g') /\
    cars g' = cars g /\
    py_getitem2 (board g') 1 1 = Some Empty /\
    (forall r, 1 + 1 <= r <= 3 - 1 -> py_getitem2 (board g') r 1 = Some V) /\
    (forall r c, 0 <= r -> 0 <= c -> c <> 1 \/ r < 1 ->
       py_getitem2 (board g') r c = py_getitem2 (board g) r c).
Proof.
  apply (_move_down_vertical_at_bottom 3 _ 1 (mkCar (1, 1) (2, 1) vertical 2) 1 1).
  - reflexivity.
  - split; [reflexivity | repeat constructor].
  - reflexivity.
  - reflexivity.
  - reflexivity.
  - lia.
  - lia.
Defined.

(** X7. A horizontal car in the last row, moved down: the helper raises
    [IndexError] at the first cell, after it has emptied it.  The object is
    left with the car's leftmost cell erased and nothing else changed. *)
Theorem _move_down_horizontal_at_bottom n g car_num car sj ej :
  py_getitem (cars g) (car_num - 1) = Some car ->
  square n (board g) ->
  orientation car = horizontal ->
  start_pos car = (n - 1, sj) -> snd (end_pos car) = ej ->
  0 < n -> 0 <= sj <= ej -> ej < n ->
  exists g',
    _move_down car_num g = (Raise IndexError, g') /\
    cars g' = cars g /\
    py_getitem2 (board g') (n - 1) sj = Some Empty /\
    (forall r c, 0 <= r -> 0 <= c -> r <> n - 1 \/ c <> sj ->
       py_getitem2 (board g') r c = py_getitem2 (board g) r c).
Proof.
  intros Hcar Hsq Ho Hs He Hn Hsj Hej.
  destruct (board_setitem_square n g (n - 1) sj Empty Hsq)
    as (b1 & E1 & Hsq1 & G1); [lia | lia |].
  exists (mkGame (board_dimension g) b1 (cars g)).
  split; [|split; [reflexivity|]].
  - unfold _move_down.
    erewrite bind_val by reflexivity.
    rewrite Hcar. erewrite bind_val by reflexivity.
    rewrite Ho. simpl orient_eqb. simpl cell_eqb. cbv iota.
    rewrite Hs, He. apply bind_raise.
    rewrite py_range_cons by lia. simpl for_.
    apply bind_raise. erewrite bind_val by exact E1.
    replace (n - 1 + 1) with n by lia.
    apply board_setitem_below. exact Hsq1.
  - simpl board. split.
    + rewrite G1 by lia. rewrite !Z.mod_small by lia. cases_Z.
    + intros r c Hr Hc Hout. rewrite G1 by lia.
      rewrite !Z.mod_small by lia. cases_Z.
Qed.

Lemma _move_down_horizontal_at_bottom_witness :
  let g := snd (find_cars (Game__init__ 5)) in
  exists g',
    _move_down 2 g = (Raise IndexError, g') /\
    cars g' = cars g /\
    py_getitem2 (board g') (5 - 1) 3 = Some Empty /\
    (forall r c, 0 <= r -> 0 <= c -> r <> 5 - 1 \/ c <> 3 ->
       py_getitem2 (board g') r c = py_getitem2 (board g) r c).
Proof.
  apply (_move_down_horizontal_at_bottom 5 _ 2
           (mkCar (4, 3) (4, 4) horizontal 2) 3 4).
  - reflexivity.
  - split; [reflexivity | repeat constructor].
  - reflexivity.
  - reflexivity.
  - reflexivity.
  - lia.
  - lia.
  - lia.
Defined.

(** ** Moves on a stale Car collection *)

Ltac cases_bool :=
  repeat match goal with
  | |- context [if ?b then _ else _] => destruct b
  end; reflexivity.

(** X8. The helpers read the car's position from the cached collection,
    which they do not update: repeating a move without a scan in between
    writes the same cells again.  For a car that fits in a square board
    [_move_up] returns normally and a second [_move_up] leaves the object
    as the first one left it; the same holds for [_move_down] when the row
    it writes exists. *)
Theorem stale_move_repeats n g car_num car :
  py_getitem (cars g) (car_num - 1) = Some car ->
  square n (board g) ->
  fits n car ->
  (exists g',
     _move_up car_num g = (Val tt, g') /\
     _move_up car_num g' = (Val tt, g')) /\
  (fst (if orient_eqb (orientation car) vertical
        then end_pos car else start_pos car) + 1 < n ->
   exists g',
     _move_down car_num g = (Val tt, g') /\
     _move_down car_num g' = (Val tt, g')).
Proof.
  intros Hcar Hsq (Hr & Hc & Her & Hec).
  destruct (start_pos car) as [a b] eqn:Hs. simpl in Hr, Hc.
  destruct (orientation car) eqn:Ho; simpl orient_eqb; cbv iota; split.
  - destruct (_move_up_vertical n g car_num car Hcar Hsq a b _ Ho Hs eq_refl)
      as (b1 & E1 & Hsq1 & G1); [lia | lia | lia |].
    destruct (_move_up_vertical n (mkGame (board_dimension g) b1 (cars g))
                car_num car Hcar Hsq1 a b _ Ho Hs eq_refl)
      as (b2 & E2 & Hsq2 & G2); [lia | lia | lia |].
    simpl in E2, G2.
    assert (b2 = b1) as ->.
    { apply (square_ext n); [assumption | assumption |].
      intros r c Hr' Hc'. rewrite G2, G1 by lia. cases_bool. }
    eexists. split; [exact E1 | exact E2].
  - intros Hbelow.
    destruct (_move_down_vertical n g car_num car Hcar Hsq a b _ Ho Hs eq_refl)
      as (b1 & E1 & Hsq1 & G1); [lia | lia | lia |].
    destruct (_move_down_vertical n (mkGame (board_dimension g) b1 (cars g))
                car_num car Hcar Hsq1 a b _ Ho Hs eq_refl)
      as (b2 & E2 & Hsq2 & G2); [lia | lia | lia |].
    simpl in E2, G2.
    assert (b2 = b1) as ->.
    { apply (square_ext n); [assumption | assumption |].
      intros r c Hr' Hc'. rewrite G2, G1 by lia. cases_bool. }
    eexists. split; [exact E1 | exact E2].
  - destruct (_move_up_horizontal n g car_num car Hcar Hsq a b _ Ho Hs eq_refl)
      as (b1 & E1 & Hsq1 & G1); [lia | lia | lia |].
    destruct (_move_up_horizontal n (mkGame (board_dimension g) b1 (cars g))
                car_num car Hcar Hsq1 a b _ Ho Hs eq_refl)
      as (b2 & E2 & Hsq2 & G2); [lia | lia | lia |].
    simpl in E2, G2.
    assert (b2 = b1) as ->.
    { apply (square_ext n); [assumption | assumption |].
      intros r c Hr' Hc'. rewrite G2, G1 by lia. cases_bool. }
    eexists. split; [exact E1 | exact E2].
  - intros Hbelow. simpl in Hbelow.
    destruct (_move_down_horizontal n g car_num car Hcar Hsq a b _ Ho Hs eq_refl)
      as (b1 & E1 & Hsq1 & G1); [lia | lia | lia | lia |].
    destruct (_move_down_horizontal n (mkGame (board_dimension g) b1 (cars g))
                car_num car Hcar Hsq1 a b _ Ho Hs eq_refl)
      as (b2 & E2 & Hsq2 & G2); [lia | lia | lia | lia |].
    simpl in E2, G2.
    assert (b2 = b1) as ->.
    { apply (square_ext n); [assumption | assumption |].
      intros r c Hr' Hc'. rewrite G2, G1 by lia. cases_bool. }
    eexists. split; [exact E1 | exact E2].
Qed.

Lemma stale_move_repeats_witness :
  let g := snd (find_cars (Game__init__ 5)) in
  let car := mkCar (1, 2) (2, 2) vertical 2 in
  (exists g',
     _move_up 1 g = (Val tt, g') /\
     _move_up 1 g' = (Val tt, g')) /\
  (fst (if orient_eqb (orientation car) vertical
        then end_pos car else start_pos car) + 1 < 5 ->
   exists g',
     _move_down 1 g = (Val tt, g') /\
     _move_down 1 g' = (Val tt, g')).
Proof.
  apply (stale_move_repeats 5 _ 1 (mkCar (1, 2) (2, 2) vertical 2)).
  - reflexivity.
  - split; [reflexivity | repeat constructor].
  - unfold fits. simpl. lia.
Defined.

(** * Further properties of the scan *)

Lemma pairwise_nil {A} (R : A -> A -> Prop) : pairwise R [].
Proof. intros i j a b _ Hi. discriminate. Qed.

Lemma pairwise_snoc {A} (R : A -> A -> Prop) (l : list A) (x : A) :
  pairwise R l -> Forall (fun a => R a x) l -> pairwise R (l ++ [x]).
Proof.
  intros Hl Hx i j a b Hij Hi Hj.
  destruct (Nat.lt_ge_cases j (length l)) as [Hjl | Hjl].
  - rewrite lookup_app_l in Hi, Hj by lia. exact (Hl i j a b Hij Hi Hj).
  - rewrite lookup_app_r in Hj by lia.
    destruct (j - length l)%nat as [|k] eqn:Ek; [|destruct k; discriminate].
    injection Hj as <-.
    rewrite lookup_app_l in Hi by lia.
    rewrite Forall_forall in Hx. apply Hx.
    apply list_elem_of_lookup. exists i. exact Hi.
Qed.

(** The car built from a run covers the cells of the run only. *)
Lemma covers_run_inv o r0 c0 lo hi r c :
  covers (Car__init__ (fst (line_point o r0 c0 lo), snd (line_point o r0 c0 lo))
                      (fst (line_point o r0 c0 hi), snd (line_point o r0 c0 hi))
                      o) r c = true ->
  exists t, lo <= t <= hi /\ (r, c) = line_point o r0 c0 t.
Proof.
  unfold covers, Car__init__, line_point. simpl.
  rewrite !andb_true_iff, !Z.leb_le.
  destruct (axis_cases o) as [-> | ->]; simpl; intros [[[H1 H2] H3] H4].
  - exists (c - c0). split; [lia|]. f_equal; lia.
  - exists (r - r0). split; [lia|]. f_equal; lia.
Qed.

(** What the body of the loops does at a cell of a square board: nothing
    when the cell is settled, one search and one more car otherwise. *)
Lemma scan_cell_spec n b (r c : Z) visited g :
  square n b -> 0 <= r < n -> 0 <= c < n ->
  board_dimension g = n -> board g = b -> square n visited ->
  (settled n b visited r c /\ scan_cell r c visited g = (Val visited, g)) \/
  (exists x kb kf S visited',
     cell_at n b r c = Some x /\ x <> Empty /\
     py_getitem2 visited r c = Some false /\
     0 <= kb /\ 0 <= kf /\
     grows n visited visited' S /\
     (forall p, In p S <->
        exists t, - kb <= t <= kf /\ p = line_point (orient_of x) r c t) /\
     (forall t, - kb <= t <= kf ->
        fresh n b x visited (line_point (orient_of x) r c t) = true) /\
     scan_cell r c visited g =
       (Val visited',
        mkGame n b
          (cars g ++
           [Car__init__ (fst (line_point (orient_of x) r c (- kb)),
                         snd (line_point (orient_of x) r c (- kb)))
                        (fst (line_point (orient_of x) r c kf),
                         snd (line_point (orient_of x) r c kf))
                        (orient_of x)]))).
Proof.
  intros Hb Hr Hc Hdim Hboard Hsq.
  destruct (square_getitem2 n b r c Hb Hr Hc) as [x Hx].
  destruct (square_getitem2 n visited r c Hsq Hr Hc) as [v Hv].
  assert (Eget : board_getitem r c g = (Val x, g))
    by (apply board_getitem_val; rewrite Hboard; exact Hx).
  assert (Hcell : cell_at n b r c = Some x)
    by (apply cell_at_Some; split; [split|]; assumption).
  unfold scan_cell. rewrite (bind_val _ _ _ _ _ Eget).
  destruct (cell_eqb x Empty) eqn:Ex.
  { left. split; [|reflexivity]. left.
    apply cell_eqb_eq in Ex. subst x. exact Hcell. }
  rewrite Hv. erewrite bind_val by reflexivity.
  destruct v.
  { left. split; [|reflexivity]. right. exact Hv. }
  right.
  assert (Hne : x <> Empty) by (intros ->; discriminate).
  assert (Ef : fresh n b x visited (r, c) = true)
    by (apply fresh_true; repeat split; try assumption; lia).
  rewrite <- (line_point_0 (orient_of x) r c) in Ef.
  destruct (dfs_from_fresh n b Hb x (orient_of x) r c visited Hsq Ef)
    as (kb & kf & S & visited' & Hkb & Hkf & Edfs & G & HS & Hfresh & _ & _).
  rewrite line_point_0 in Edfs.
  destruct (bounds_of_line (orient_of x) r c (- kb) kf S ltac:(lia) HS)
    as (Emin_r & Emin_c & Emax_r & Emax_c).
  exists x, kb, kf, S, visited'.
  split; [exact Hcell|]. split; [exact Hne|]. split; [reflexivity|].
  split; [exact Hkb|]. split; [exact Hkf|]. split; [exact G|].
  split; [exact HS|]. split; [exact Hfresh|].
  rewrite (bind_val _ _ _ _ _ Eget).
  erewrite bind_val by reflexivity.
  erewrite bind_val by reflexivity.
  rewrite Hdim, Hboard. fold (orient_of x). rewrite Edfs.
  erewrite bind_val by reflexivity.
  assert (Hstart : In (r, c) S).
  { apply HS. exists 0. split; [lia|]. symmetry. apply line_point_0. }
  destruct S as [|p S']; [destruct Hstart|].
  rewrite Emin_r, Emin_c, Emax_r, Emax_c.
  do 6 (erewrite bind_val by reflexivity).
  rewrite <- Hdim, <- Hboard. reflexivity.
Qed.

Lemma row_major_lt_next r c p :
  row_major_lt p (r, c) \/ p = (r, c) -> row_major_lt p (r, c + 1).
Proof.
  unfold row_major_lt. simpl. intros [[H1 | [H1 H2]] | ->]; simpl; lia.
Qed.

(** The cell one step back along the axis comes earlier in the scan. *)
Lemma line_point_back o r c :
  row_major_lt (line_point o r c (-1)) (r, c).
Proof.
  unfold row_major_lt, line_point.
  destruct (axis_cases o) as [-> | ->]; simpl; lia.
Qed.

(** One cell of the scan, with what is known when the scan reaches it. *)
Lemma scan_cell_order n b (r c : Z) visited g :
  square n b -> 0 <= r < n -> 0 <= c < n ->
  scan_order_inv n b r c visited g ->
  exists visited' g',
    scan_cell r c visited g = (Val visited', g') /\
    scan_order_inv n b r (c + 1) visited' g'.
Proof.
  intros Hb Hr Hc (HI & Hbefore & Hstarts & Hsorted & Hrec & Hapart).
  destruct (scan_cell_inv n b r c visited g Hb Hr Hc HI)
    as (v' & g' & E & HI' & Hset & Hmono).
  pose proof HI as (Hdim & Hboard & Hsq & _).
  exists v', g'. split; [exact E|].
  assert (Hbefore' : forall r' c', 0 <= r' < n -> 0 <= c' < n ->
            row_major_lt (r', c') (r, c + 1) -> settled n b v' r' c').
  { intros r' c' Hr' Hc' Hlt.
    destruct (Z.eq_dec r' r) as [-> | Hner];
      [destruct (Z.eq_dec c' c) as [-> | Hnec]|].
    - exact Hset.
    - apply (settled_later n b visited v'); [lia | lia | exact Hmono |].
      apply Hbefore; [lia | lia |]. unfold row_major_lt in *. simpl in *. lia.
    - apply (settled_later n b visited v'); [lia | lia | exact Hmono |].
      apply Hbefore; [lia | lia |]. unfold row_major_lt in *. simpl in *. lia. }
  destruct (scan_cell_spec n b r c visited g Hb Hr Hc Hdim Hboard Hsq)
    as [[_ E2] | (x & kb & kf & S & v2 & Hcell & Hne & Hv & Hkb & Hkf & G & HS
                  & Hfresh & E2)];
    pose proof (eq_trans (eq_sym E) E2) as E3;
    apply pair_equal_spec in E3; destruct E3 as [E3 ->];
    injection E3 as ->.
  - split; [exact HI'|]. split; [exact Hbefore'|]. split; [|split; [|split]].
    + eapply Forall_impl; [exact Hstarts|]. intros car Hcar.
      apply row_major_lt_next. left. exact Hcar.
    + exact Hsorted.
    + intros car r' c' Hin Hcov. destruct (Hrec car r' c' Hin Hcov)
        as (H1 & H2 & H3). exact (conj H1 (conj H2 H3)).
    + exact Hapart.
  - assert (kb = 0) as ->.
    { destruct (Z.eq_dec kb 0) as [E0 | Hpos]; [exact E0 | exfalso].
      pose proof (Hfresh (-1) ltac:(lia)) as Hf.
      pose proof (line_point_back (orient_of x) r c) as Hlt.
      destruct (line_point (orient_of x) r c (-1)) as [r1 c1].
      apply fresh_true in Hf. destruct Hf as [[Hr1 Hc1] [Hv1 Hx1]].
      destruct (Hbefore r1 c1 Hr1 Hc1 Hlt) as [Hempty | Hseen].
      - apply cell_at_Some in Hempty. destruct Hempty as [_ Hempty]. congruence.
      - congruence. }
    change (- 0) with 0 in *. rewrite line_point_0 in *. simpl fst. simpl snd.
    set (car := Car__init__ (r, c)
                  (fst (line_point (orient_of x) r c kf),
                   snd (line_point (orient_of x) r c kf)) (orient_of x)) in *.
    assert (Hnew : forall r' c', covers car r' c' = true ->
              fresh n b x visited (r', c') = true /\ In (r', c') S).
    { intros r' c' Hcov.
      assert (Ecar : car =
                Car__init__ (fst (line_point (orient_of x) r c 0),
                             snd (line_point (orient_of x) r c 0))
                            (fst (line_point (orient_of x) r c kf),
                             snd (line_point (orient_of x) r c kf))
                            (orient_of x))
        by (rewrite line_point_0; reflexivity).
      rewrite Ecar in Hcov.
      apply covers_run_inv in Hcov. destruct Hcov as (t & Ht & ->).
      split; [apply Hfresh; lia | apply HS; exists t; split; [lia | reflexivity]]. }
    split; [exact HI'|]. split; [exact Hbefore'|]. split; [|split; [|split]].
    + simpl cars. apply Forall_app. split.
      * eapply Forall_impl; [exact Hstarts|]. intros car0 Hcar0.
        apply row_major_lt_next. left. exact Hcar0.
      * constructor; [|constructor]. apply row_major_lt_next. right. reflexivity.
    + simpl cars. apply pairwise_snoc; [exact Hsorted | exact Hstarts].
    + intros car0 r' c' Hin Hcov. simpl cars in Hin.
      apply in_app_or in Hin. destruct Hin as [Hin | [<- | []]].
      * destruct (Hrec car0 r' c' Hin Hcov) as (H1 & H2 & H3).
        split; [exact H1|]. split; [exact H2|]. apply Hmono; assumption.
      * destruct (Hnew r' c' Hcov) as [Hf Hin].
        apply fresh_true in Hf. destruct Hf as [[Hr' Hc'] _].
        split; [simpl; lia|]. split; [simpl; lia|]. simpl.
        destruct G as [_ Gget]. rewrite Gget by lia.
        replace (mem S r' c') with true; [reflexivity|].
        symmetry. apply mem_In. exact Hin.
    + assert (Hap : forall car0, In car0 (cars g) -> apart car0 car).
      { intros car0 Hin0 r' c'.
        destruct (covers car0 r' c') eqn:Hc0; [|reflexivity].
        destruct (covers car r' c') eqn:Hc1; [exfalso | reflexivity].
        destruct (Hrec car0 r' c' Hin0 Hc0) as (_ & _ & Hseen).
        simpl in Hseen. destruct (Hnew r' c' Hc1) as [Hf _].
        apply fresh_true in Hf. destruct Hf as [_ [Hv' _]]. congruence. }
      simpl cars. apply pairwise_snoc; [exact Hapart|].
      apply Forall_forall. intros car0 Hin0.
      apply list_elem_of_In in Hin0. exact (Hap car0 Hin0).
Qed.

(** A [for] loop over [range(a, b)] with an invariant of the loop
    variable. *)
Lemma for_fold_range {St} (I : Z -> St -> Game -> Prop) (a b : Z)
    (body : Z -> St -> M St) :
  a <= b ->
  (forall i s g, a <= i < b -> I i s g ->
     exists s' g', body i s g = (Val s', g') /\ I (i + 1) s' g') ->
  forall s g, I a s g ->
    exists s' g', for_fold (py_range a b) body s g = (Val s', g') /\ I b s' g'.
Proof.
  intros Hab Hbody.
  assert (Hgen : forall (k : nat) a', a <= a' -> b - a' = Z.of_nat k ->
            forall s g, I a' s g ->
              exists s' g',
                for_fold (py_range a' b) body s g = (Val s', g') /\ I b s' g').
  { induction k as [|k IH]; intros a' Ha' Hk s g HI.
    - assert (a' = b) as -> by lia.
      unfold py_range. rewrite seqZ_nil by lia.
      exists s, g. split; [reflexivity | exact HI].
    - destruct (Hbody a' s g ltac:(lia) HI) as (s1 & g1 & E1 & HI1).
      destruct (IH (a' + 1) ltac:(lia) ltac:(lia) s1 g1 HI1)
        as (s2 & g2 & E2 & HI2).
      exists s2, g2. split; [|exact HI2].
      rewrite py_range_cons by lia. simpl.
      rewrite (bind_val _ _ _ _ _ E1). exact E2. }
  intros s g HI. apply (Hgen (Z.to_nat (b - a)) a); [lia | lia | exact HI].
Qed.

(** The scan of a square board, with what is known at its end: every cell
    is settled, and the cars are in the order of their first cells, cover
    visited cells only and share no cell. *)
Lemma find_cars_scan n g :
  board_dimension g = n ->
  square n (board g) ->
  exists visited g',
    find_cars g = (Val tt, g') /\
    scan_order_inv n (board g) n 0 visited g'.
Proof.
  intros Hdim Hb. subst n. set (n := board_dimension g) in *.
  assert (Hn : n = Z.of_nat (Z.to_nat n)) by (destruct Hb as [<- _]; lia).
  set (g0 := mkGame n (board g) []).
  set (visited0 := replicate (Z.to_nat n) (replicate (Z.to_nat n) false)).
  assert (HI0 : scan_order_inv n (board g) 0 0 visited0 g0).
  { split; [|split; [|split; [|split; [|split]]]].
    - split; [reflexivity|]. split; [reflexivity|].
      split; [|split; [|split]].
      + unfold visited0. rewrite Hn at 1. apply square_replicate.
      + apply closed_replicate.
      + constructor.
      + apply accounted_replicate.
    - intros r' c' Hr' Hc' Hlt. unfold row_major_lt in Hlt. simpl in Hlt. lia.
    - constructor.
    - apply pairwise_nil.
    - intros car r' c' [].
    - apply pairwise_nil. }
  destruct (for_fold_range (fun r => scan_order_inv n (board g) r 0) 0 n
              (fun r visited =>
                 do dim_c <- get_board_dimension;
                 for_fold (py_range 0 dim_c)
                   (fun c visited => scan_cell r c visited) visited))
    with (s := visited0) (g := g0) as (visited' & g' & E & HI'); [lia | |exact HI0|].
  - intros r v g1 Hr HI.
    pose proof HI as ((Hdim1 & _) & _).
    erewrite bind_val by reflexivity. rewrite Hdim1.
    destruct (for_fold_range (fun c => scan_order_inv n (board g) r c) 0 n
                (fun c visited => scan_cell r c visited))
      with (s := v) (g := g1) as (v' & g2 & E & HI2); [lia | |exact HI|].
    + intros c v1 g2 Hc HI2. apply scan_cell_order; [exact Hb | lia | lia | exact HI2].
    + exists v', g2. split; [exact E|].
      destruct HI2 as (H1 & H2 & H3 & H4 & H5 & H6).
      split; [exact H1|]. split; [|split; [|split; [|split]]]; try assumption.
      * intros r' c' Hr' Hc' Hlt. apply H2; [lia | lia |].
        unfold row_major_lt in *. simpl in *. lia.
      * eapply Forall_impl; [exact H3|]. intros car Hcar.
        unfold row_major_lt in *. simpl in *.
        destruct Hcar as [Hcar | [Hcar Hcar']]; [lia|].
        left. lia.
  - exists visited', g'. split; [|exact HI'].
    unfold find_cars.
    erewrite bind_val by reflexivity.
    erewrite bind_val by reflexivity.
    erewrite bind_val by reflexivity.
    simpl board_dimension. fold n. fold visited0. fold g0.
    erewrite bind_val by exact E. reflexivity.
Qed.

(** ** The order and the cells of the cars *)

(** X11. On a square board the cars come out in the order in which the
    scan meets their first cells: the start cell of a car with a smaller
    index lies before the start cell of a car with a larger index, row by
    row and from left to right.  A car's number says where it starts
    relative to the others. *)
Theorem find_cars_in_scan_order n g :
  board_dimension g = n ->
  square n (board g) ->
  exists g',
    find_cars g = (Val tt, g') /\
    forall (i j : nat) a b,
      (i < j)%nat -> cars g' !! i = Some a -> cars g' !! j = Some b ->
      row_major_lt (start_pos a) (start_pos b).
Proof.
  intros Hdim Hb.
  destruct (find_cars_scan n g Hdim Hb)
    as (visited & g' & E & _ & _ & _ & Hsorted & _).
  exists g'. split; [exact E|]. exact Hsorted.
Qed.

Lemma find_cars_in_scan_order_witness :
  exists g',
    find_cars (Game__init__ 5) = (Val tt, g') /\
    forall (i j : nat) a b,
      (i < j)%nat -> cars g' !! i = Some a -> cars g' !! j = Some b ->
      row_major_lt (start_pos a) (start_pos b).
Proof.
  apply (find_cars_in_scan_order 5 (Game__init__ 5)).
  - reflexivity.
  - split; [reflexivity | repeat constructor].
Defined.

(** X12. On a square board every occupied cell lies in exactly one car:
    there is one index whose car covers the cell, and no car of another
    index does. *)
Theorem find_cars_one_car_per_cell n g :
  board_dimension g = n ->
  square n (board g) ->
  exists g',
    find_cars g = (Val tt, g') /\
    forall r c x,
      cell_at n (board g) r c = Some x -> x <> Empty ->
      exists (i : nat) car,
        cars g' !! i = Some car /\ covers car r c = true /\
        forall (i' : nat) car',
          cars g' !! i' = Some car' -> covers car' r c = true -> i' = i.
Proof.
  intros Hdim Hb.
  destruct (find_cars_scan n g Hdim Hb)
    as (visited & g' & E & HI & Hdone & _ & _ & _ & Hapart).
  exists g'. split; [exact E|].
  intros r c x Hcell Hx.
  destruct HI as (_ & _ & _ & _ & _ & Hacc).
  pose proof Hcell as Hcell'. apply cell_at_Some in Hcell'.
  destruct Hcell' as [[Hr Hc] _].
  assert (Hseen : py_getitem2 visited r c = Some true).
  { destruct (Hdone r c Hr Hc) as [Hempty | Hseen]; [| congruence | exact Hseen].
    unfold row_major_lt. simpl. lia. }
  destruct (Hacc r c Hr Hc Hseen) as (car & Hin & Hcov).
  apply list_elem_of_In, list_elem_of_lookup in Hin. destruct Hin as [i Hi].
  exists i, car. split; [exact Hi|]. split; [exact Hcov|].
  intros i' car' Hi' Hcov'.
  destruct (Nat.lt_total i' i) as [Hlt | [Heq | Hlt]]; [exfalso | exact Heq | exfalso].
  - pose proof (Hapart i' i car' car Hlt Hi' Hi r c) as Hap.
    rewrite Hcov, Hcov' in Hap. discriminate.
  - pose proof (Hapart i i' car car' Hlt Hi Hi' r c) as Hap.
    rewrite Hcov, Hcov' in Hap. discriminate.
Qed.

Lemma find_cars_one_car_per_cell_witness :
  exists g',
    find_cars (Game__init__ 5) = (Val tt, g') /\
    forall r c x,
      cell_at 5 (board (Game__init__ 5)) r c = Some x -> x <> Empty ->
      exists (i : nat) car,
        cars g' !! i = Some car /\ covers car r c = true /\
        forall (i' : nat) car',
          cars g' !! i' = Some car' -> covers car' r c = true -> i' = i.
Proof.
  apply (find_cars_one_car_per_cell 5 (Game__init__ 5)).
  - reflexivity.
  - split; [reflexivity | repeat constructor].
Defined.

(** X13. On a square board the scan finds no car exactly when every cell
    is empty. *)
Theorem find_cars_none_iff_empty n g :
  board_dimension g = n ->
  square n (board g) ->
  exists g',
    find_cars g = (Val tt, g') /\
    (cars g' = [] <->
     forall r c, 0 <= r < n -> 0 <= c < n ->
       py_getitem2 (board g) r c = Some Empty).
Proof.
  intros Hdim Hb.
  destruct (find_cars_scan n g Hdim Hb)
    as (visited & g' & E & HI & Hdone & _).
  exists g'. split; [exact E|].
  destruct HI as (_ & _ & _ & _ & Hruns & Hacc). split.
  - intros Hnil r c Hr Hc.
    destruct (Hdone r c Hr Hc) as [Hempty | Hseen].
    + unfold row_major_lt. simpl. lia.
    + apply cell_at_Some in Hempty. apply Hempty.
    + destruct (Hacc r c Hr Hc Hseen) as (car & Hin & _).
      rewrite Hnil in Hin. destruct Hin.
  - intros Hempty. destruct (cars g') as [|car cs]; [reflexivity | exfalso].
    apply Forall_inv in Hruns. unfold maximal_run in Hruns.
    destruct (start_pos car) as [r1 c1], (end_pos car) as [r2 c2].
    destruct (orientation car).
    + destruct Hruns as (_ & Hle & Hcells & _).
      specialize (Hcells r1 ltac:(lia)). apply cell_at_Some in Hcells.
      destruct Hcells as [[Hr Hc] Hget]. rewrite Hempty in Hget by lia.
      discriminate.
    + destruct Hruns as (_ & Hle & Hcells & _).
      specialize (Hcells c1 ltac:(lia)). apply cell_at_Some in Hcells.
      destruct Hcells as [[Hr Hc] Hget]. rewrite Hempty in Hget by lia.
      discriminate.
Qed.

Lemma find_cars_none_iff_empty_witness :
  exists g',
    find_cars (Game__init__ 5) = (Val tt, g') /\
    (cars g' = [] <->
     forall r c, 0 <= r < 5 -> 0 <= c < 5 ->
       py_getitem2 (board (Game__init__ 5)) r c = Some Empty).
Proof.
  apply (find_cars_none_iff_empty 5 (Game__init__ 5)).
  - reflexivity.
  - split; [reflexivity | repeat constructor].
Defined.

(** ** Up, scan, down *)








(** The condition on the cell two above the car is needed.  With another
    "v" there, the scan after the move joins the two cars into one, and
    moving that car down does not give the original board back. *)
Example up_scan_down_joins_cars :
  let b := [ [Empty; Empty; V; Empty; Empty];
             [Empty; Empty; Empty; Empty; Empty];
             [Empty; Empty; V; Empty; Empty];
             [Empty; Empty; V; Empty; Empty];
             [Empty; Empty; Empty; Empty; Empty] ] in
  let g := snd (find_cars (mkGame 5 b [])) in
  let g1 := snd (find_cars (snd (_move_up 2 g))) in
  cars g = [mkCar (0, 2) (0, 2) vertical 1; mkCar (2, 2) (3, 2) vertical 2] /\
  cars g1 = [mkCar (0, 2) (2, 2) vertical 3] /\
  board (snd (_move_down 1 g1)) <> board g.
Proof. vm_compute. repeat split; discriminate. Qed.



(** * The exceptions of the scan *)

Section Raises.
Context (e : exn) (b : list (list cell)) (n : Z).

Lemma ror_ret {A} (a : A) : returns_or_raises e b n (ret a).
Proof. intros g Hg. left. exists a, g. split; [reflexivity | exact Hg]. Qed.

Lemma ror_lift {A} (r : outcome A) :
  (forall e', r = Raise e' -> e' = e) -> returns_or_raises e b n (lift r).
Proof.
  intros Hr g Hg. destruct r as [a | e'].
  - left. exists a, g. split; [reflexivity | exact Hg].
  - right. exists g. rewrite (Hr e' eq_refl). split; [reflexivity | exact Hg].
Qed.

Lemma ror_bind {A B} (m : M A) (k : A -> M B) :
  returns_or_raises e b n m ->
  (forall a, returns_or_raises e b n (k a)) ->
  returns_or_raises e b n (bind m k).
Proof.
  intros Hm Hk g Hg. destruct (Hm g Hg) as [(a & g1 & E & Hg1) | (g1 & E & Hg1)].
  - rewrite (bind_val _ _ _ _ _ E). apply Hk. exact Hg1.
  - right. exists g1. split; [apply bind_raise; exact E | exact Hg1].
Qed.

Lemma ror_for_fold {A St} (l : list A) (body : A -> St -> M St) :
  (forall x s, returns_or_raises e b n (body x s)) ->
  forall s, returns_or_raises e b n (for_fold l body s).
Proof.
  intros Hbody. induction l as [|x l IH]; intros s; simpl.
  - apply ror_ret.
  - apply ror_bind; [apply Hbody | exact IH].
Qed.

(** A loop whose body raises at one of the items raises. *)
Lemma for_fold_raises {A St} (l : list A) (body : A -> St -> M St) (x : A) :
  (forall y s, returns_or_raises e b n (body y s)) ->
  In x l ->
  (forall s g, on_board b n g ->
     exists g', body x s g = (Raise e, g') /\ on_board b n g') ->
  forall s g, on_board b n g ->
    exists g', for_fold l body s g = (Raise e, g') /\ on_board b n g'.
Proof.
  intros Hbody Hin Hx. induction l as [|y l IH]; [destruct Hin|].
  intros s g Hg. simpl.
  destruct Hin as [-> | Hin].
  - destruct (Hx s g Hg) as (g' & E & Hg').
    exists g'. split; [apply bind_raise; exact E | exact Hg'].
  - destruct (Hbody y s g Hg) as [(s1 & g1 & E & Hg1) | (g1 & E & Hg1)].
    + rewrite (bind_val _ _ _ _ _ E). apply (IH Hin). exact Hg1.
    + exists g1. split; [apply bind_raise; exact E | exact Hg1].
Qed.

Lemma ror_get_board : returns_or_raises e b n get_board.
Proof. intros g Hg. left. exists (board g), g. split; [reflexivity | exact Hg]. Qed.

Lemma ror_get_cars : returns_or_raises e b n get_cars.
Proof. intros g Hg. left. exists (cars g), g. split; [reflexivity | exact Hg]. Qed.

Lemma ror_get_board_dimension : returns_or_raises e b n get_board_dimension.
Proof.
  intros g Hg. left. exists (board_dimension g), g.
  split; [reflexivity | exact Hg].
Qed.

Lemma ror_set_cars cs : returns_or_raises e b n (set_cars cs).
Proof.
  intros g [Hb Hn]. left. eexists tt, _. split; [reflexivity|].
  split; assumption.
Qed.
End Raises.

Lemma ror_index_or_raise {A} b n (o : option A) :
  returns_or_raises IndexError b n (index_or_raise o).
Proof.
  intros g Hg. destruct o as [a|].
  - left. exists a, g. split; [reflexivity | exact Hg].
  - right. exists g. split; [reflexivity | exact Hg].
Qed.

Lemma ror_board_getitem b n r c :
  returns_or_raises IndexError b n (board_getitem r c).
Proof.
  unfold board_getitem. apply ror_bind; [apply ror_get_board|].
  intros b'. apply ror_index_or_raise.
Qed.

(** The search raises nothing but [IndexError]. *)
Lemma dfs_body_raises dim b car_type o visited car_parts curr stack e :
  dfs_body dim b car_type o visited car_parts curr stack = Raise e ->
  e = IndexError.
Proof.
  unfold dfs_body. destruct curr as [curr_r curr_c].
  destruct (negb _); [discriminate|].
  destruct (py_getitem2 visited curr_r curr_c) as [[|]|];
    [discriminate | | congruence].
  destruct (py_getitem2 b curr_r curr_c) as [x|]; [|congruence].
  destruct (negb _); [discriminate|].
  destruct (py_setitem2 visited curr_r curr_c true); [discriminate | congruence].
Qed.

Lemma dfs_fuel_raises dim b car_type o fuel :
  forall visited car_parts stack e,
    dfs_fuel fuel dim b car_type o visited car_parts stack = Some (Raise e) ->
    e = IndexError.
Proof.
  induction fuel as [|fuel IH]; intros visited car_parts stack e;
    destruct stack as [|curr stack]; simpl; try discriminate.
  destruct (dfs_body dim b car_type o visited car_parts curr stack)
    as [[[v p] s]|e'] eqn:E.
  - apply IH.
  - intros [= <-]. exact (dfs_body_raises _ _ _ _ _ _ _ _ _ E).
Qed.

Lemma dfs_raises dim b car_type o visited car_parts stack e :
  dfs dim b car_type o visited car_parts stack = Raise e -> e = IndexError.
Proof.
  unfold dfs.
  destruct (dfs_fuel _ dim b car_type o visited car_parts stack)
    as [[res | e']|] eqn:E; try discriminate.
  intros [= <-]. exact (dfs_fuel_raises _ _ _ _ _ _ _ _ _ E).
Qed.

Lemma ror_scan_cell b n r c visited :
  returns_or_raises IndexError b n (scan_cell r c visited).
Proof.
  unfold scan_cell.
  apply ror_bind; [apply ror_board_getitem | intros x].
  destruct (cell_eqb x Empty); [apply ror_ret|].
  apply ror_bind; [apply ror_index_or_raise | intros seen].
  destruct seen; [apply ror_ret|].
  apply ror_bind; [apply ror_board_getitem | intros car_type].
  apply ror_bind; [apply ror_get_board_dimension | intros dim].
  apply ror_bind; [apply ror_get_board | intros b'].
  apply ror_bind; [apply ror_lift; apply dfs_raises|].
  intros [visited' [|p ps]]; [apply ror_ret|].
  do 4 (apply ror_bind; [apply ror_lift; discriminate | intros ?]).
  apply ror_bind; [apply ror_get_cars | intros cs].
  apply ror_bind; [apply ror_set_cars | intros _]. apply ror_ret.
Qed.

Lemma ror_find_cars b n : returns_or_raises IndexError b n find_cars.
Proof.
  unfold find_cars.
  apply ror_bind; [apply ror_set_cars | intros _].
  apply ror_bind; [apply ror_get_board_dimension | intros dim].
  apply ror_bind; [apply ror_get_board_dimension | intros dim_r].
  apply ror_bind; [|intros _; apply ror_ret].
  apply ror_for_fold. intros r visited.
  apply ror_bind; [apply ror_get_board_dimension | intros dim_c].
  apply ror_for_fold. intros c visited'. apply ror_scan_cell.
Qed.

(** X14. Whatever the board and the dimension, also when they do not fit
    each other, the scan returns normally or raises [IndexError]: [min] and
    [max] are never applied to an empty [car_parts], so no [ValueError]
    comes out of it. *)
Theorem find_cars_raises_only_IndexError (g : Game) :
  fst (find_cars g) = Val tt \/ fst (find_cars g) = Raise IndexError.
Proof.
  destruct (ror_find_cars (board g) (board_dimension g) g)
    as [([] & g' & E & _) | (g' & E & _)].
  - split; reflexivity.
  - left. rewrite E. reflexivity.
  - right. rewrite E. reflexivity.
Qed.

(** X15. When the dimension exceeds the side of the (square) board, the
    scan raises [IndexError], in the first row, and leaves the board as it
    was. *)
Theorem find_cars_dimension_too_large m g :
  square m (board g) ->
  m < board_dimension g ->
  exists g', find_cars g = (Raise IndexError, g') /\ board g' = board g.
Proof.
  intros Hsq Hm.
  set (b := board g). set (n := board_dimension g).
  assert (Hm0 : 0 <= m) by (destruct Hsq as [<- _]; lia).
  assert (Hcell : forall visited g1, on_board b n g1 ->
            exists g', scan_cell 0 m visited g1 = (Raise IndexError, g') /\
                       on_board b n g').
  { intros visited g1 Hg1. exists g1. split; [|exact Hg1].
    unfold scan_cell. apply bind_raise.
    unfold board_getitem. erewrite bind_val by reflexivity.
    destruct Hg1 as [-> _].
    replace (py_getitem2 b 0 m) with (@None cell); [reflexivity|].
    symmetry. unfold py_getitem2. rewrite py_getitem_nonneg by lia.
    destruct (Z.eq_dec m 0) as [-> | Hne].
    - destruct Hsq as [Hlen _]. fold b in Hlen.
      destruct b; [reflexivity | simpl in Hlen; lia].
    - destruct (square_row m b 0%nat Hsq) as (row & Hrow & Hlen); [lia|].
      change (Z.to_nat 0) with 0%nat. rewrite Hrow. apply py_getitem_out. lia. }
  assert (Hrow : forall visited g1, on_board b n g1 ->
            exists g',
              (do dim_c <- get_board_dimension;
               for_fold (py_range 0 dim_c)
                 (fun c visited => scan_cell 0 c visited) visited) g1
              = (Raise IndexError, g') /\ on_board b n g').
  { intros visited g1 Hg1. erewrite bind_val by reflexivity.
    pose proof Hg1 as [_ ->].
    apply (for_fold_raises IndexError b n _ _ m).
    - intros c s. apply ror_scan_cell.
    - apply In_py_range. lia.
    - exact Hcell.
    - exact Hg1. }
  assert (Hg0 : on_board b n (mkGame n b [])) by (split; reflexivity).
  destruct (for_fold_raises IndexError b n (py_range 0 n)
              (fun r visited =>
                 do dim_c <- get_board_dimension;
                 for_fold (py_range 0 dim_c)
                   (fun c visited => scan_cell r c visited) visited) 0)
    with (s := replicate (Z.to_nat n) (replicate (Z.to_nat n) false))
         (g := mkGame n b [])
    as (g' & E & Hg').
  - intros r s. apply ror_bind; [apply ror_get_board_dimension | intros dim_c].
    apply ror_for_fold. intros c visited'. apply ror_scan_cell.
  - apply In_py_range. lia.
  - exact Hrow.
  - exact Hg0.
  - exists g'. split; [|apply Hg'].
    unfold find_cars.
    erewrite bind_val by reflexivity.
    erewrite bind_val by reflexivity.
    erewrite bind_val by reflexivity.
    apply bind_raise. exact E.
Qed.

Lemma find_cars_dimension_too_large_witness :
  exists g',
    find_cars (Game__init__ 6) = (Raise IndexError, g') /\
    board g' = board (Game__init__ 6).
Proof.
  apply (find_cars_dimension_too_large 5 (Game__init__ 6)).
  - split; [reflexivity | repeat constructor].
  - simpl. lia.
Defined.

(** ** The search stops *)

(** X16. The search loop stops, on every board, visited grid and stack,
    also malformed ones: a loop cut after [fuel] turns gives the result of
    the uncut loop as soon as [fuel] reaches the number of cells on the
    stack plus twice the number of unvisited cells. *)
Theorem dfs_stops_within_measure dim b car_type o visited car_parts stack
    (fuel : nat) :
  (dfs_measure visited stack <= fuel)%nat ->
  dfs_fuel fuel dim b car_type o visited car_parts stack
  = Some (dfs dim b car_type o visited car_parts stack).
Proof.
  intros Hfuel. unfold dfs.
  destruct (dfs_fuel_enough dim b car_type o (dfs_measure visited stack)
              visited car_parts stack) as [res Hres]; [lia|].
  rewrite Hres. exact (dfs_fuel_more _ _ _ _ _ fuel _ _ _ _ Hres Hfuel).
Qed.

Lemma dfs_stops_within_measure_witness :
  let visited := replicate 5 (replicate 5 false) in
  dfs_fuel 51 5 ESTADO_INICIAL V vertical visited [] [(1, 2)]
  = Some (dfs 5 ESTADO_INICIAL V vertical visited [] [(1, 2)]).
Proof.
  apply (dfs_stops_within_measure 5 ESTADO_INICIAL V vertical
           (replicate 5 (replicate 5 false)) [] [(1, 2)] 51).
  vm_compute. lia.
Defined.

(** * Properties of [__str__] *)

Lemma paint_car_keeps {X} (f : Game -> X) n car copy :
  keeps f (paint_car n car copy).
Proof.
  unfold paint_car.
  destruct (orient_eqb (orientation car) vertical).
  - destruct (start_pos car) as [start_i j].
    apply keeps_for_fold. intros i copy'. apply keeps_index_or_raise.
  - destruct (orient_eqb (orientation car) horizontal).
    + destruct (start_pos car) as [i start_j].
      apply keeps_for_fold. intros j copy'. apply keeps_index_or_raise.
    + apply keeps_ret.
Qed.

Lemma paint_keeps {X} (f : Game -> X) cs copy : keeps f (paint cs copy).
Proof.
  unfold paint. apply keeps_for_fold. intros nc copy'. apply paint_car_keeps.
Qed.

(** X17. Converting the object to a string scans the board: the object is
    left as [find_cars] leaves it, with the Car collection rebuilt and the
    board untouched (the painting is done on a copy), and an exception of
    the scan comes out of [__str__]. *)
Theorem __str___rescans (g : Game) :
  snd (__str__ g) = snd (find_cars g) /\
  board (snd (__str__ g)) = board g /\
  (forall e, fst (find_cars g) = Raise e -> fst (__str__ g) = Raise e).
Proof.
  assert (E : snd (__str__ g) = snd (find_cars g) /\
              (forall e, fst (find_cars g) = Raise e ->
                         fst (__str__ g) = Raise e)).
  { unfold __str__. unfold bind at 1 5.
    destruct (find_cars g) as [[[]|e] g1]; simpl.
    - split; [|discriminate].
      apply (keeps_bind (fun g => g)); [apply keeps_get_board | intros b].
      apply keeps_bind; [apply keeps_get_cars | intros cs].
      apply keeps_bind; [apply paint_keeps | intros copy]. apply keeps_ret.
    - split; [reflexivity | intros e' [= ->]; reflexivity]. }
  destruct E as [E1 E2]. split; [exact E1|]. split; [|exact E2].
  rewrite E1. apply find_cars_keeps_board.
Qed.

(** ** What the copy shows *)

Lemma py_getitem2_deepcopy (b : list (list cell)) (r c : Z) :
  0 <= r -> 0 <= c ->
  py_getitem2 (deepcopy b) r c = Marker <$> py_getitem2 b r c.
Proof.
  intros Hr Hc. unfold py_getitem2, deepcopy.
  rewrite !(py_getitem_nonneg _ r) by lia. rewrite list_lookup_fmap.
  destruct (b !! Z.to_nat r) as [row|]; simpl; [|reflexivity].
  rewrite !py_getitem_nonneg by lia. apply list_lookup_fmap.
Qed.

Lemma square_deepcopy n (b : list (list cell)) :
  square n b -> square n (deepcopy b).
Proof.
  intros [Hlen Hrows]. unfold deepcopy. split.
  - rewrite length_fmap. exact Hlen.
  - apply Forall_fmap. eapply Forall_impl; [exact Hrows|].
    intros row Hrow. simpl. rewrite length_fmap. exact Hrow.
Qed.

(** A loop of writes on the copy, at cells inside it. *)
Lemma for_fold_setitem2 {A} n (fr fc : A -> Z) (x : item) (l : list A) :
  forall copy g,
    square n copy ->
    (forall a, In a l -> 0 <= fr a < n /\ 0 <= fc a < n) ->
    exists copy',
      for_fold l (fun a copy =>
        index_or_raise (py_setitem2 copy (fr a) (fc a) x)) copy g
        = (Val copy', g) /\
      square n copy' /\
      forall r c, 0 <= r -> 0 <= c ->
        py_getitem2 copy' r c =
        if existsb (fun a => (r =? fr a) && (c =? fc a)) l then Some x
        else py_getitem2 copy r c.
Proof.
  induction l as [|a l IH]; intros copy g Hsq Hl.
  - exists copy. split; [reflexivity|]. split; [exact Hsq|]. reflexivity.
  - destruct (Hl a (or_introl eq_refl)) as [Hr Hc].
    destruct (py_setitem2_square n copy (fr a) (fc a) x Hsq)
      as (copy1 & E1 & Hsq1 & G1); [lia | lia |].
    destruct (IH copy1 g Hsq1) as (copy' & E' & Hsq' & G');
      [intros a' Ha'; apply Hl; right; exact Ha'|].
    exists copy'. split; [|split; [exact Hsq'|]].
    + simpl. rewrite E1. erewrite bind_val by reflexivity. exact E'.
    + intros r c Hr' Hc'. rewrite G', G1 by assumption.
      rewrite !Z.mod_small by lia. simpl existsb.
      destruct (existsb _ l), ((r =? fr a) && (c =? fc a)); reflexivity.
Qed.

(** A car that is a maximal run covers occupied cells of the board only. *)
Lemma maximal_run_covers n b car r c :
  maximal_run n b car -> covers car r c = true ->
  exists x, x <> Empty /\ cell_at n b r c = Some x.
Proof.
  unfold maximal_run, covers.
  destruct (start_pos car) as [r1 c1], (end_pos car) as [r2 c2]. simpl.
  rewrite !andb_true_iff, !Z.leb_le. intros Hrun [[[H1 H2] H3] H4].
  destruct (orientation car).
  - destruct Hrun as (E & _ & Hcells & _).
    exists V. split; [discriminate|].
    replace c with c1 by lia. apply Hcells. lia.
  - destruct Hrun as (E & _ & Hcells & _).
    exists H. split; [discriminate|].
    replace r with r1 by lia. apply Hcells. lia.
Qed.

(** Painting one car writes its number on the cells it covers. *)
Lemma paint_car_spec n b k car copy g :
  maximal_run n b car -> square n copy ->
  exists copy',
    paint_car k car copy g = (Val copy', g) /\
    square n copy' /\
    forall r c, 0 <= r -> 0 <= c ->
      py_getitem2 copy' r c =
      if covers car r c then Some (Number (k + 1)) else py_getitem2 copy r c.
Proof.
  intros Hrun Hsq. destruct car as [[r1 c1] [r2 c2] o len].
  unfold maximal_run in Hrun. simpl in Hrun.
  unfold paint_car, covers. simpl.
  destruct o; simpl.
  - destruct Hrun as (<- & Hle & Hcells & _).
    pose proof (Hcells r1 ltac:(lia)) as H1. apply cell_at_Some in H1.
    pose proof (Hcells r2 ltac:(lia)) as H2. apply cell_at_Some in H2.
    destruct (for_fold_setitem2 n (fun i => i) (fun _ => c1) (Number (k + 1))
                (py_range r1 (r2 + 1)) copy g Hsq)
      as (copy' & E & Hsq' & G).
    { intros i Hi. apply In_py_range in Hi. lia. }
    exists copy'. split; [exact E|]. split; [exact Hsq'|].
    intros r c Hr Hc. rewrite G by assumption.
    replace (existsb _ _) with
      ((r1 <=? r) && (r <=? r2) && (c1 <=? c) && (c <=? c1)); [reflexivity|].
    apply eq_true_iff_eq.
    rewrite existsb_py_range, !andb_true_iff, !Z.leb_le. split.
    + intros [[[? ?] ?] ?]. exists r. split; [lia|].
      apply andb_true_iff. rewrite !Z.eqb_eq. lia.
    + intros (i & Hi & Hrc). apply andb_true_iff in Hrc.
      rewrite !Z.eqb_eq in Hrc. lia.
  - destruct Hrun as (<- & Hle & Hcells & _).
    pose proof (Hcells c1 ltac:(lia)) as H1. apply cell_at_Some in H1.
    pose proof (Hcells c2 ltac:(lia)) as H2. apply cell_at_Some in H2.
    destruct (for_fold_setitem2 n (fun _ => r1) (fun j => j) (Number (k + 1))
                (py_range c1 (c2 + 1)) copy g Hsq)
      as (copy' & E & Hsq' & G).
    { intros j Hj. apply In_py_range in Hj. lia. }
    exists copy'. split; [exact E|]. split; [exact Hsq'|].
    intros r c Hr Hc. rewrite G by assumption.
    replace (existsb _ _) with
      ((r1 <=? r) && (r <=? r1) && (c1 <=? c) && (c <=? c2)); [reflexivity|].
    apply eq_true_iff_eq.
    rewrite existsb_py_range, !andb_true_iff, !Z.leb_le. split.
    + intros [[[? ?] ?] ?]. exists c. split; [lia|].
      apply andb_true_iff. rewrite !Z.eqb_eq. lia.
    + intros (j & Hj & Hrc). apply andb_true_iff in Hrc.
      rewrite !Z.eqb_eq in Hrc. lia.
Qed.

(** Painting the cars one after the other. *)
Lemma paint_rest n b (rest : list Car) :
  forall done copy g,
    Forall (maximal_run n b) rest ->
    pairwise apart (done ++ rest) ->
    painted n b done copy ->
    exists copy',
      for_fold (enumerate_from (Z.of_nat (length done)) rest)
        (fun nc copy => paint_car (fst nc) (snd nc) copy) copy g
        = (Val copy', g) /\
      painted n b (done ++ rest) copy'.
Proof.
  induction rest as [|car rest IH]; intros done copy g Hruns Hapart Hp.
  - exists copy. split; [reflexivity|]. rewrite app_nil_r. exact Hp.
  - destruct Hp as [Hsq Hp].
    destruct (paint_car_spec n b (Z.of_nat (length done)) car copy g
                (Forall_inv Hruns) Hsq) as (copy1 & E1 & Hsq1 & G1).
    assert (Hp1 : painted n b (done ++ [car]) copy1).
    { split; [exact Hsq1|]. intros r c Hr Hc.
      destruct (Hp r c Hr Hc) as [Hnum Hmark]. split.
      - intros i car_i Hi Hcov. rewrite G1 by lia.
        destruct (Nat.lt_ge_cases i (length done)) as [Hlt | Hge].
        + rewrite lookup_app_l in Hi by lia.
          assert (Hap : apart car_i car).
          { apply (Hapart i (length done) car_i car Hlt).
            - rewrite lookup_app_l by lia. exact Hi.
            - apply list_lookup_middle. reflexivity. }
          specialize (Hap r c). rewrite Hcov in Hap. simpl in Hap.
          rewrite Hap. exact (Hnum i car_i Hi Hcov).
        + rewrite lookup_app_r in Hi by lia.
          destruct (i - length done)%nat as [|k] eqn:Ek;
            [|destruct k; discriminate].
          injection Hi as <-. rewrite Hcov.
          replace i with (length done) by lia. reflexivity.
      - intros Hnone. rewrite G1 by lia.
        rewrite (Hnone car) by (apply in_or_app; right; left; reflexivity).
        apply Hmark. intros car0 Hin. apply Hnone.
        apply in_or_app. left. exact Hin. }
    destruct (IH (done ++ [car]) copy1 g (Forall_inv_tail Hruns))
      as (copy' & E' & Hp'); [|exact Hp1|].
    { rewrite <- app_assoc. exact Hapart. }
    exists copy'. split.
    + simpl. rewrite (bind_val _ _ _ _ _ E1).
      rewrite length_app, Nat2Z.inj_add in E'. exact E'.
    + rewrite <- app_assoc in Hp'. exact Hp'.
Qed.

(** X18. On a square board [__str__] returns the rendering of a copy of
    the board in which every empty cell still holds 0 and every cell of a
    car holds the number of that car, its index in the rebuilt collection
    plus one; the markers "h" and "v" of the occupied cells are all
    replaced. *)
Theorem __str___shows_car_numbers n g :
  board_dimension g = n ->
  square n (board g) ->
  exists g' copy,
    find_cars g = (Val tt, g') /\
    __str__ g = (Val (render copy), g') /\
    square n copy /\
    forall r c, 0 <= r < n -> 0 <= c < n ->
      (py_getitem2 (board g) r c = Some Empty ->
       py_getitem2 copy r c = Some (Marker Empty)) /\
      (forall (i : nat) car,
         cars g' !! i = Some car -> covers car r c = true ->
         py_getitem2 copy r c = Some (Number (Z.of_nat i + 1))) /\
      (forall x, py_getitem2 copy r c = Some (Marker x) -> x = Empty).
Proof.
  intros Hdim Hb.
  destruct (find_cars_scan n g Hdim Hb)
    as (visited & g' & E & HI & Hdone & _ & _ & _ & Hapart).
  destruct HI as (_ & Hboard & _ & _ & Hruns & Hacc).
  destruct (paint_rest n (board g) (cars g') [] (deepcopy (board g)) g'
              Hruns Hapart) as (copy & Ep & Hsq & Hp).
  { split; [apply square_deepcopy; exact Hb|].
    intros r c Hr Hc. split; [intros i car Hi; discriminate|].
    intros _. apply py_getitem2_deepcopy; lia. }
  exists g', copy. split; [exact E|]. split; [|split; [exact Hsq|]].
  - unfold __str__. rewrite (bind_val _ _ _ _ _ E).
    erewrite bind_val by reflexivity.
    erewrite bind_val by reflexivity.
    rewrite Hboard. unfold paint, enumerate.
    erewrite bind_val by exact Ep. reflexivity.
  - intros r c Hr Hc. destruct (Hp r c Hr Hc) as [Hnum Hmark].
    assert (Hfree : py_getitem2 (board g) r c = Some Empty ->
              forall car, In car (cars g') -> covers car r c = false).
    { intros Hempty car Hin. apply not_true_is_false. intros Hcov.
      rewrite Forall_forall in Hruns.
      destruct (maximal_run_covers n (board g) car r c) as (x & Hx & Hcell);
        [apply Hruns, list_elem_of_In, Hin | exact Hcov |].
      apply cell_at_Some in Hcell. destruct Hcell as [_ Hcell]. congruence. }
    split; [|split].
    + intros Hempty. rewrite Hmark by (apply Hfree; exact Hempty).
      rewrite Hempty. reflexivity.
    + exact Hnum.
    + intros x Hx.
      destruct (square_getitem2 n (board g) r c Hb Hr Hc) as [y Hy].
      destruct y; [rewrite Hmark, Hy in Hx by (apply Hfree; exact Hy);
                   injection Hx as <-; reflexivity | |];
        exfalso.
      * assert (Hcell : cell_at n (board g) r c = Some H)
          by (apply cell_at_Some; split; [split|]; assumption).
        assert (Hseen : py_getitem2 visited r c = Some true).
        { destruct (Hdone r c Hr Hc) as [He | Hs]; [| congruence | exact Hs].
          unfold row_major_lt. simpl. lia. }
        destruct (Hacc r c Hr Hc Hseen) as (car & Hin & Hcov).
        apply list_elem_of_In, list_elem_of_lookup in Hin.
        destruct Hin as [i Hi]. rewrite (Hnum i car Hi Hcov) in Hx.
        discriminate.
      * assert (Hcell : cell_at n (board g) r c = Some V)
          by (apply cell_at_Some; split; [split|]; assumption).
        assert (Hseen : py_getitem2 visited r c = Some true).
        { destruct (Hdone r c Hr Hc) as [He | Hs]; [| congruence | exact Hs].
          unfold row_major_lt. simpl. lia. }
        destruct (Hacc r c Hr Hc Hseen) as (car & Hin & Hcov).
        apply list_elem_of_In, list_elem_of_lookup in Hin.
        destruct Hin as [i Hi]. rewrite (Hnum i car Hi Hcov) in Hx.
        discriminate.
Qed.

Lemma __str___shows_car_numbers_witness :
  exists g' copy,
    find_cars (Game__init__ 5) = (Val tt, g') /\
    __str__ (Game__init__ 5) = (Val (render copy), g') /\
    square 5 copy /\
    forall r c, 0 <= r < 5 -> 0 <= c < 5 ->
      (py_getitem2 (board (Game__init__ 5)) r c = Some Empty ->
       py_getitem2 copy r c = Some (Marker Empty)) /\
      (forall (i : nat) car,
         cars g' !! i = Some car -> covers car r c = true ->
         py_getitem2 copy r c = Some (Number (Z.of_nat i + 1))) /\
      (forall x, py_getitem2 copy r c = Some (Marker x) -> x = Empty).
Proof.
  apply (__str___shows_car_numbers 5 (Game__init__ 5)).
  - reflexivity.
  - split; [reflexivity | repeat constructor].
Defined.
